(** * npm-versions-tracker: the historical merge, the week bucketizer and
      the batch runner of [merge-alex-stats.ts]

    A shallow embedding of the TypeScript source.  Numbers that the script
    handles (epoch milliseconds, download counts) are integers and are
    modelled as [Z]; JavaScript objects used as dictionaries are [gmap]s;
    arrays are lists; the [Map] built by [batchDatesByWeek] keeps its
    insertion order and is an association list.  In-place mutation of
    [existingData] becomes a function from the old record to the new one.
    The script exists in two versions that share [updateHistoricalData]
    and [main]; the orchestrator modelled is the one with week batching.

    Version keys are taken to be ordinary own properties (no key shadows a
    member of [Object.prototype]), and array values of [downloads] are
    always truthy, as they are in JavaScript. *)

From Stdlib Require Import ZArith Lia Ascii String.
From stdpp Require Import gmap strings list fin_maps sorting.

Local Open Scope Z_scope.

(** ** JavaScript array primitives used by the script *)

Module JsArray.

(** [Array.prototype.findIndex]: index of the first element satisfying
    the predicate, [-1] when there is none. *)
Fixpoint findIndex_from {A} (p : A → bool) (l : list A) (i : Z) : Z :=
  match l with
  | [] => -1
  | x :: l' => if p x then i else findIndex_from p l' (i + 1)
  end.

Definition findIndex {A} (p : A → bool) (l : list A) : Z :=
  findIndex_from p l 0.

(** The actual start of [Array.prototype.splice(start, ...)]: a negative
    [start] counts back from the end of the array, and the result is
    clamped into [0 .. len]. *)
Definition splice_start (start : Z) (len : nat) : nat :=
  if start <? 0 then Z.to_nat (Z.max (Z.of_nat len + start) 0)
  else Z.to_nat (Z.min start (Z.of_nat len)).

(** [arr.splice(start, 0, x)]: nothing is deleted, [x] is inserted. *)
Definition splice_insert {A} (start : Z) (x : A) (l : list A) : list A :=
  let a := splice_start start (length l) in
  take a l ++ x :: drop a l.

(** [new Array(n).fill(x)] *)
Definition new_Array_fill {A} (n : nat) (x : A) : list A := replicate n x.

End JsArray.

(** ** Historical merge engine *)

Module Merge.
Import JsArray.

(** [interface HistoricalData] *)
Record HistoricalData := mkHistoricalData {
  package : string;
  timestamps : list Z;
  downloads : gmap string (list Z);
}.

(** Truthiness of [newDownloads[version]]: a missing key reads as
    [undefined], and the number [0] is falsy as well. *)
Definition truthy_count (o : option Z) : bool :=
  match o with
  | None => false
  | Some c => negb (c =? 0)
  end.

(** First loop: [for (const [version, count] of Object.entries(newDownloads))].
    An iteration touches the array of its own version only, so the order
    of the entries does not matter (lemma [addNewCounts_lookup]). *)
Definition addNewCounts (insertIndex : Z) (len : nat)
    (newDownloads : gmap string Z) (d : gmap string (list Z))
    : gmap string (list Z) :=
  map_fold (λ version count acc,
      match acc !! version with
      | None => <[version := new_Array_fill len 0]> acc
      | Some arr => <[version := splice_insert insertIndex count arr]> acc
      end) d newDownloads.

(** Second loop: [for (const version of Object.keys(existingData.downloads))],
    over the keys present after the first loop. *)
Definition fillMissing (insertIndex : Z) (newDownloads : gmap string Z)
    (d : gmap string (list Z)) : gmap string (list Z) :=
  map_fold (λ version _ acc,
      if truthy_count (newDownloads !! version) then acc
      else alter (splice_insert insertIndex 0) version acc) d d.

Definition updateHistoricalData (newDownloads : gmap string Z)
    (timestamp : Z) (existingData : HistoricalData) : HistoricalData :=
  let insertIndex :=
    findIndex (λ value, timestamp <=? value) (timestamps existingData) in
  if (0 <=? insertIndex)
     && bool_decide (timestamps existingData !! Z.to_nat insertIndex
                     = Some timestamp)
  then existingData
  else
    let ts := splice_insert insertIndex timestamp (timestamps existingData) in
    let d1 := addNewCounts insertIndex (length ts) newDownloads
                (downloads existingData) in
    let d2 := fillMissing insertIndex newDownloads d1 in
    {| package := package existingData; timestamps := ts; downloads := d2 |}.

(** The value found at [insertIndex] equals the incoming timestamp: the
    guard of the early [return]. *)
Definition already_present (timestamp : Z) (ts : list Z) : bool :=
  let insertIndex := findIndex (λ value, timestamp <=? value) ts in
  (0 <=? insertIndex)
  && bool_decide (ts !! Z.to_nat insertIndex = Some timestamp).

(** The position the spec describes: the first index whose value is at
    least the timestamp, the length of the sequence when there is none. *)
Fixpoint insertPosition (ts : Z) (l : list Z) : nat :=
  match l with
  | [] => 0%nat
  | x :: l' => if ts <=? x then 0%nat else S (insertPosition ts l')
  end.

(** Index alignment: every version's array is as long as [timestamps]. *)
Definition aligned (s : HistoricalData) : Prop :=
  map_Forall (λ _ arr, length arr = length (timestamps s)) (downloads s).

(** Strictly increasing sequence of integers. *)
Definition strictly_increasing (l : list Z) : Prop :=
  StronglySorted Z.lt l.

#[global] Instance aligned_dec s : Decision (aligned s).
Proof. unfold aligned. apply _. Defined.

#[global] Instance strictly_increasing_dec l : Decision (strictly_increasing l).
Proof. unfold strictly_increasing. apply _. Defined.

(** The zero-fill rule in the words of the spec: at the insertion position
    a tracked version gets a [0] when the observation omits it and its
    observed count otherwise. *)
Definition zero_fill_claim (newDownloads : gmap string Z) (timestamp : Z)
    (s : HistoricalData) : Prop :=
  let pos := insertPosition timestamp (timestamps s) in
  let s' := updateHistoricalData newDownloads timestamp s in
  ∀ v arr, downloads s !! v = Some arr →
    downloads s' !! v
    = Some (take pos arr ++ default 0 (newDownloads !! v) :: drop pos arr).

End Merge.

(** ** The error monad of the script: a call returns or throws *)

Inductive io (A : Type) : Type :=
  | Ok (a : A)
  | Throw (msg : string).
Arguments Ok {A} a.
Arguments Throw {A} msg.

#[global] Instance io_ret : MRet io := λ A a, Ok a.

#[global] Instance io_bind : MBind io := λ A B k c,
  match c with
  | Ok a => k a
  | Throw msg => Throw msg
  end.

Definition succeeded {A} (c : io A) : bool :=
  match c with Ok _ => true | Throw _ => false end.

(** ** ECMAScript time values and the [Date] methods the script calls *)

Module EsDate.

Definition msPerDay : Z := 86400000.

Definition Day (t : Z) : Z := t / msPerDay.
Definition TimeWithinDay (t : Z) : Z := t mod msPerDay.

Definition DayFromYear (y : Z) : Z :=
  365 * (y - 1970) + (y - 1969) / 4 - (y - 1901) / 100 + (y - 1601) / 400.

Definition DaysInYear (y : Z) : Z :=
  if negb (y mod 4 =? 0) then 365
  else if negb (y mod 100 =? 0) then 366
  else if negb (y mod 400 =? 0) then 365
  else 366.

(** The largest [y] with [DayFromYear y <= day]: an estimate from the mean
    length of a Gregorian year, corrected by at most one year. *)
Definition YearFromDay (day : Z) : Z :=
  let y0 := 1970 + (day * 400) / 146097 in
  if day <? DayFromYear y0 then y0 - 1
  else if DayFromYear (y0 + 1) <=? day then y0 + 1
  else y0.

Definition YearFromTime (t : Z) : Z := YearFromDay (Day t).

Definition InLeapYear (t : Z) : Z :=
  if DaysInYear (YearFromTime t) =? 366 then 1 else 0.

Definition DayWithinYear (t : Z) : Z := Day t - DayFromYear (YearFromTime t).

(** Number of days of the year before month [m] (0 = January). *)
Definition monthStart (leap m : Z) : Z :=
  match m with
  | 0 => 0
  | 1 => 31
  | 2 => 59 + leap
  | 3 => 90 + leap
  | 4 => 120 + leap
  | 5 => 151 + leap
  | 6 => 181 + leap
  | 7 => 212 + leap
  | 8 => 243 + leap
  | 9 => 273 + leap
  | 10 => 304 + leap
  | _ => 334 + leap
  end.

Definition MonthFromTime (t : Z) : Z :=
  let d := DayWithinYear t in
  let leap := InLeapYear t in
  if d <? 31 then 0
  else if d <? 59 + leap then 1
  else if d <? 90 + leap then 2
  else if d <? 120 + leap then 3
  else if d <? 151 + leap then 4
  else if d <? 181 + leap then 5
  else if d <? 212 + leap then 6
  else if d <? 243 + leap then 7
  else if d <? 273 + leap then 8
  else if d <? 304 + leap then 9
  else if d <? 334 + leap then 10
  else 11.

Definition DateFromTime (t : Z) : Z :=
  DayWithinYear t - monthStart (InLeapYear t) (MonthFromTime t) + 1.

(** Sunday is 0; 1970-01-01 was a Thursday. *)
Definition WeekDay (t : Z) : Z := (Day t + 4) mod 7.

Definition MakeDay (year month date : Z) : Z :=
  let ym := year + month / 12 in
  let mn := month mod 12 in
  let leap := if DaysInYear ym =? 366 then 1 else 0 in
  DayFromYear ym + monthStart leap mn + date - 1.

Definition MakeTime (hour min sec ms : Z) : Z :=
  ((hour * 60 + min) * 60 + sec) * 1000 + ms.

Definition MakeDate (day time : Z) : Z := day * msPerDay + time.

(** A time value beyond 8.64e15 ms from the epoch is not a date ([NaN]). *)
Definition TimeClip (t : Z) : option Z :=
  if Z.abs t <=? 8640000000000000 then Some t else None.

(** Two-digit years given to the [Date] constructor mean 19xx. *)
Definition MakeFullYear (y : Z) : Z :=
  if (0 <=? y) && (y <=? 99) then 1900 + y else y.

(** The environment of a run: the offset of local time from UTC, in
    milliseconds, and the engine's [Date.parse] ([None] is [NaN]). *)
Record Env := mkEnv {
  LocalTZA : Z;
  Date_parse : string → option Z;
}.

(** A [Date] object holds a time value or [NaN] (an invalid date). *)
Definition Date := option Z.

Definition LocalTime (env : Env) (t : Z) : Z := t + LocalTZA env.
Definition UTC (env : Env) (t : Z) : Z := t - LocalTZA env.

(** [new Date(string)] *)
Definition new_Date_string (env : Env) (s : string) : Date :=
  Date_parse env s ≫= TimeClip.

(** [date.getTime()] *)
Definition getTime (d : Date) : option Z := d.

Definition getUTCDay (d : Date) : option Z := WeekDay <$> d.
Definition getUTCDate (d : Date) : option Z := DateFromTime <$> d.

Definition getFullYear (env : Env) (d : Date) : option Z :=
  (λ t, YearFromTime (LocalTime env t)) <$> d.
Definition getMonth (env : Env) (d : Date) : option Z :=
  (λ t, MonthFromTime (LocalTime env t)) <$> d.
Definition getDate (env : Env) (d : Date) : option Z :=
  (λ t, DateFromTime (LocalTime env t)) <$> d.

(** [d.setUTCDate(dt)]: the new value of [d]. *)
Definition setUTCDate (d : Date) (dt : option Z) : Date :=
  t ← d; dt ← dt;
  TimeClip (MakeDate (MakeDay (YearFromTime t) (MonthFromTime t) dt)
                     (TimeWithinDay t)).

(** [new Date(year, month, date, hours, minutes, seconds, ms)], in local
    time. *)
Definition new_Date_fields (env : Env) (year month date : option Z)
    (hours minutes seconds ms : Z) : Date :=
  y ← year; m ← month; dt ← date;
  TimeClip (UTC env (MakeDate (MakeDay (MakeFullYear y) m dt)
                              (MakeTime hours minutes seconds ms))).

Definition digit_char (d : Z) : ascii := ascii_of_nat (48 + Z.to_nat d).
Arguments digit_char : simpl never.

(** The last [n] decimal digits of [z], zero padded, in front of [acc]. *)
Fixpoint pad_digits (n : nat) (z : Z) (acc : string) : string :=
  match n with
  | O => acc
  | S n' => pad_digits n' (z / 10) (String (digit_char (z mod 10)) acc)
  end.

Definition year_string (y : Z) (acc : string) : string :=
  if (0 <=? y) && (y <=? 9999) then pad_digits 4 y acc
  else String (if y <? 0 then "-"%char else "+"%char)
         (pad_digits 6 (Z.abs y) acc).

(** [HH:mm:ss.sssZ] for the time within the day [w]. *)
Definition time_string (w : Z) : string :=
  pad_digits 2 (w / 3600000)
    (String ":" (pad_digits 2 ((w / 60000) mod 60)
      (String ":" (pad_digits 2 ((w / 1000) mod 60)
        (String "." (pad_digits 3 (w mod 1000) "Z")))))).

(** [d.toISOString()]: [YYYY-MM-DDTHH:mm:ss.sssZ] in UTC; a [RangeError]
    on an invalid date. *)
Definition toISOString (d : Date) : io string :=
  match d with
  | None => Throw "RangeError: Invalid time value"
  | Some t =>
      Ok (year_string (YearFromTime t)
           (String "-" (pad_digits 2 (MonthFromTime t + 1)
             (String "-" (pad_digits 2 (DateFromTime t)
               (String "T" (time_string (TimeWithinDay t))))))))
  end.

(** [s.split(c)[0]]: the part of [s] before the first [c]. *)
Fixpoint split_head (c : ascii) (s : string) : string :=
  match s with
  | EmptyString => EmptyString
  | String a s' => if Ascii.eqb a c then EmptyString
                   else String a (split_head c s')
  end.

Definition digit_value (a : ascii) : option Z :=
  let n := Z.of_nat (nat_of_ascii a) in
  if (48 <=? n) && (n <=? 57) then Some (n - 48) else None.

Definition DaysInMonth (y m : Z) : Z :=
  let leap := if DaysInYear y =? 366 then 1 else 0 in
  (if m =? 11 then 365 + leap else monthStart leap (m + 1)) - monthStart leap m.

(** The date-only form [YYYY-MM-DD] of the ECMAScript date-time string
    format, which denotes midnight UTC.  Every other string is treated as
    unparseable here. *)
Definition Date_parse_date_only (s : string) : option Z :=
  match s with
  | String y1 (String y2 (String y3 (String y4 (String "-"
      (String m1 (String m2 (String "-" (String d1 (String d2
      EmptyString))))))))) =>
      a ← digit_value y1; b ← digit_value y2; c ← digit_value y3;
      d ← digit_value y4; e ← digit_value m1; f ← digit_value m2;
      g ← digit_value d1; h ← digit_value d2;
      let y := ((a * 10 + b) * 10 + c) * 10 + d in
      let m := e * 10 + f in
      let dt := g * 10 + h in
      if (1 <=? m) && (m <=? 12) && (1 <=? dt) && (dt <=? DaysInMonth y (m - 1))
      then Some (MakeDate (MakeDay y (m - 1) dt) 0)
      else None
  | _ => None
  end.

End EsDate.

(** ** A JavaScript [Map] with string keys: entries in insertion order *)

Module JsMap.

Definition t (V : Type) : Type := list (string * V).

Fixpoint get {V} (k : string) (m : t V) : option V :=
  match m with
  | [] => None
  | (k', v) :: m' => if String.eqb k k' then Some v else get k m'
  end.

Definition has {V} (k : string) (m : t V) : bool :=
  match get k m with Some _ => true | None => false end.

(** [set] on a key that is present replaces its value where it stands; a
    new key goes to the end. *)
Fixpoint set {V} (k : string) (v : V) (m : t V) : t V :=
  match m with
  | [] => [(k, v)]
  | (k', v') :: m' =>
      if String.eqb k k' then (k, v) :: m' else (k', v') :: set k v m'
  end.

Definition keys {V} (m : t V) : list string := List.map fst m.

End JsMap.

(** [Array.prototype.sort()] without a comparator, on strings: ascending
    in the order of the code units (bytes here; the identifiers are ASCII). *)
Definition js_sort (l : list string) : list string := merge_sort String.le l.

(** ** Week bucketizer *)

Module Bucketizer.
Import EsDate.

Definition onlyDay (env : Env) (date : Date) : Date :=
  new_Date_fields env (getFullYear env date) (getMonth env date)
    (getDate env date) 0 0 0 0.

Definition DAY_MILLISECONDS : Z := 24 * 60 * 60 * 1000.

(** JavaScript subtraction of two numbers, [NaN] ([None]) being absorbing. *)
Definition js_sub (a b : option Z) : option Z :=
  x ← a; y ← b; Some (x - y).

Definition getWeekKey (env : Env) (date : Date) : io string :=
  let sunday : Date := date in
  let dayOfWeek := getUTCDay date in
  let sunday := setUTCDate sunday (js_sub (getUTCDate date) dayOfWeek) in
  iso ← toISOString (onlyDay env sunday);
  Ok (split_head "T" iso).

(** The body of the first loop of [batchDatesByWeek], for one [date]. *)
Definition addToWeek (env : Env) (weekMap : JsMap.t (list string))
    (date : string) : io (JsMap.t (list string)) :=
  let timestamp := new_Date_string env (split_head "." date) in
  weekKey ← getWeekKey env timestamp;
  let weekMap1 :=
    if negb (JsMap.has weekKey weekMap) then JsMap.set weekKey [] weekMap
    else weekMap in
  Ok (JsMap.set weekKey
          (default [] (JsMap.get weekKey weekMap1) ++ [date]) weekMap1).

Fixpoint groupDates (env : Env) (dates : list string)
    (weekMap : JsMap.t (list string)) : io (JsMap.t (list string)) :=
  match dates with
  | [] => Ok weekMap
  | date :: rest =>
      weekMap' ← addToWeek env weekMap date;
      groupDates env rest weekMap'
  end.

Definition batchDatesByWeek (env : Env) (dates : list string)
    : io (JsMap.t (list string)) :=
  weekMap ← groupDates env dates [];
  Ok (List.map (prod_map id js_sort) weekMap).

(** The week key in the words of the spec: the day number of the UTC
    Sunday that begins the week containing the time value [t], and the
    [YYYY-MM-DD] form of a day number. *)
Definition utcSunday (t : Z) : Z := Day t - WeekDay t.

Definition dateString (day : Z) : string :=
  let t := day * msPerDay in
  year_string (YearFromTime t)
    (String "-" (pad_digits 2 (MonthFromTime t + 1)
      (String "-" (pad_digits 2 (DateFromTime t) EmptyString)))).

(** The number [YYYYMMDD] of a day. *)
Definition dateNumber (day : Z) : Z :=
  let t := day * msPerDay in
  (YearFromTime t * 100 + (MonthFromTime t + 1)) * 100 + DateFromTime t.

(** A file name whose date parses to a time value. *)
Definition validDate (env : Env) (date : string) : Prop :=
  is_Some (new_Date_string env (split_head "." date)).

(** Every bucket holds only names taken from [dates] that are valid. *)
Definition buckets_within (env : Env) (dates : list string)
    (weekMap : JsMap.t (list string)) : Prop :=
  ∀ k ds, JsMap.get k weekMap = Some ds →
    Forall (λ d, d ∈ dates ∧ validDate env d) ds.

End Bucketizer.

(** ** The file system seen by a run *)

Module Fs.
Import Merge.

(** Outcome of a read: the resource is absent ([ENOENT]), the read or the
    parse of the content fails for another reason, or a parsed value. *)
Inductive read (A : Type) : Type :=
  | Enoent
  | ReadError (msg : string)
  | Content (a : A).
Arguments Enoent {A}.
Arguments ReadError {A} msg.
Arguments Content {A} a.

(** [interface NpmDownloadResponse]; the script tests [downloads] for
    truthiness, so the field may be missing. *)
Record NpmDownloadResponse := mkResponse {
  resp_package : string;
  resp_downloads : option (gmap string Z);
}.

Record World := mkWorld {
  (** entries of [data-dump-alex]: name and [isFile()] *)
  seedDir : read (list (string * bool));
  (** parsed content of a seed file, by file name *)
  seedFiles : string → read (gmap string NpmDownloadResponse);
  (** files under [data]: absent, unreadable or a parsed series *)
  dataFiles : gmap string (io HistoricalData);
  (** failures of [mkdir] and [writeFile], by path *)
  mkdirError : string → option string;
  writeError : string → option string;
}.

Definition endsWith (s suffix : string) : bool :=
  let n := String.length s in
  let k := String.length suffix in
  (k <=? n)%nat && String.eqb (String.substring (n - k) k s) suffix.

Definition getSeedDates (w : World) : io (option (list string)) :=
  match seedDir w with
  | Content content =>
      Ok (Some (js_sort ((filter (λ e, e.2 = true) content).*1)))
  | Enoent => Ok None
  | ReadError msg => Throw msg
  end.

Definition readSeedData (w : World) (date : string)
    : io (option (gmap string NpmDownloadResponse)) :=
  let fileName := if endsWith date ".json" then date
                  else String.app date ".json" in
  match seedFiles w fileName with
  | Content data => Ok (Some data)
  | Enoent => Ok None
  | ReadError msg => Throw msg
  end.

Definition readExistingData (w : World) (filePath : string)
    : io (option HistoricalData) :=
  match dataFiles w !! filePath with
  | Some (Ok data) => Ok (Some data)
  | None => Ok None
  | Some (Throw msg) => Throw msg
  end.

Definition mkdir (w : World) (path : string) : io unit :=
  match mkdirError w path with
  | Some msg => Throw msg
  | None => Ok tt
  end.

Definition writeFile (w : World) (filePath : string) (data : HistoricalData)
    : io World :=
  match writeError w filePath with
  | Some msg => Throw msg
  | None =>
      Ok {| seedDir := seedDir w; seedFiles := seedFiles w;
            dataFiles := <[filePath := Ok data]> (dataFiles w);
            mkdirError := mkdirError w; writeError := writeError w |}
  end.

(** The world [w] with other files under [data]. *)
Definition with_data (w : World) (files : gmap string (io HistoricalData))
    : World :=
  {| seedDir := seedDir w; seedFiles := seedFiles w; dataFiles := files;
     mkdirError := mkdirError w; writeError := writeError w |}.

(** [join(process.cwd(), "data", `${packageName}.json`)], relative to the
    working directory. *)
Definition dataPath (packageName : string) : string :=
  String.app "data/" (String.app packageName ".json").

(** [dirname]: the path without its last component. *)
Fixpoint dirname_go (s : string) : option string :=
  match s with
  | EmptyString => None
  | String a s' =>
      match dirname_go s' with
      | Some d => Some (String a d)
      | None => if Ascii.eqb a "/" then Some EmptyString else None
      end
  end.

Definition dirname (s : string) : string := default "." (dirname_go s).

End Fs.

(** ** Per-package orchestrator *)

Module Orchestrator.
Import Merge EsDate Bucketizer Fs.

(** [data && data[packageName] && data[packageName].downloads] *)
Definition packageDownloads (packageName : string)
    (data : option (gmap string NpmDownloadResponse))
    : option (gmap string Z) :=
  d ← data; r ← d !! packageName; resp_downloads r.

(** The inner loop over the dates of one week; the boolean is [dataFound].
    A date that reaches this loop has passed [batchDatesByWeek], which
    throws on an invalid [Date] (lemma [batchDatesByWeek_buckets]), so the
    [NaN] branch is never taken. *)
Fixpoint scanWeek (env : Env) (w : World) (packageName : string)
    (weekDates : list string) (st : HistoricalData * nat)
    : io (bool * (HistoricalData * nat)) :=
  match weekDates with
  | [] => Ok (false, st)
  | date :: rest =>
      data ← readSeedData w date;
      match packageDownloads packageName data with
      | Some newDownloads =>
          let timestamp := new_Date_string env (split_head "." date) in
          match getTime timestamp with
          | Some t =>
              Ok (true, (updateHistoricalData newDownloads t st.1, S st.2))
          | None => Throw "NaN timestamp"
          end
      | None => scanWeek env w packageName rest st
      end
  end.

(** The outer loop over the sorted week keys. *)
Fixpoint scanWeeks (env : Env) (w : World) (packageName : string)
    (weekMap : JsMap.t (list string)) (weekKeys : list string)
    (st : HistoricalData * nat) : io (HistoricalData * nat) :=
  match weekKeys with
  | [] => Ok st
  | weekKey :: rest =>
      let weekDates := default [] (JsMap.get weekKey weekMap) in
      r ← scanWeek env w packageName weekDates st;
      scanWeeks env w packageName weekMap rest r.2
  end.

(** Returns the world after the write and [weeksAdded]. *)
Definition processPackage (env : Env) (w : World) (packageName : string)
    : io (World * nat) :=
  dates ← getSeedDates w;
  match dates with
  | None => Throw "Seed folder not found"
  | Some dates =>
      let filePath := dataPath packageName in
      _ ← mkdir w (dirname filePath);
      existingData ← readExistingData w filePath;
      match existingData with
      | None => Throw (String.app "existing data not found for " packageName)
      | Some existingData =>
          weekMap ← batchDatesByWeek env dates;
          let weekKeys := js_sort (JsMap.keys weekMap) in
          r ← scanWeeks env w packageName weekMap weekKeys (existingData, O);
          w' ← writeFile w filePath r.1;
          Ok (w', r.2)
      end
  end.

(** The choice of the spec for one week, in its words: the first date, in
    the order of the bucket, whose snapshot has download data for the
    package; the dates after it are not looked at. *)
Definition dataOn (w : World) (packageName date : string)
    : option (gmap string Z) :=
  match readSeedData w date with
  | Ok data => packageDownloads packageName data
  | Throw _ => None
  end.

Definition firstAvailable (w : World) (packageName : string)
    (weekDates : list string) : option (string * gmap string Z) :=
  head (omap (λ date, pair date <$> dataOn w packageName date) weekDates).

(** The observation a week contributes: timestamp and per-version counts. *)
Definition weekObservation (env : Env) (w : World) (packageName : string)
    (weekDates : list string) : option (Z * gmap string Z) :=
  o ← firstAvailable w packageName weekDates;
  t ← new_Date_string env (split_head "." o.1);
  Some (t, o.2).

(** Merging a list of observations, one after the other. *)
Definition mergeAll (obs : list (Z * gmap string Z)) (s : HistoricalData)
    : HistoricalData :=
  foldl (λ acc o, updateHistoricalData o.2 o.1 acc) s obs.

End Orchestrator.

(** ** Batch runner *)

Module Batch.
Import Fs Orchestrator.

Definition PACKAGES : list string := [
  "@mui/codemod"; "@mui/core-downloads-tracker"; "@mui/icons-material";
  "@mui/lab"; "@mui/material-nextjs"; "@mui/material";
  "@mui/material-pigment-css"; "@mui/private-theming"; "@mui/styled-engine";
  "@mui/styled-engine-sc"; "@mui/system"; "@mui/types"; "@mui/utils";
  "@mui/x-data-grid"; "@mui/x-data-grid-generator"; "@mui/x-data-grid-pro";
  "@mui/x-data-grid-premium"; "@mui/x-date-pickers";
  "@mui/x-date-pickers-pro"; "@mui/x-charts"; "@mui/x-charts-pro";
  "@mui/x-charts-premium"; "@mui/x-charts-vendor"; "@mui/x-tree-view";
  "@mui/x-tree-view-pro"; "@mui/x-license"; "@mui/x-internals";
  "@mui/x-telemetry"; "@base-ui-components/react"; "react"; "@emotion/react"
].

(** The value the callback of [PACKAGES.map] resolves to. *)
Record PackageResult := mkResult {
  res_package : string;
  res_success : bool;
  res_error : option string;
}.

(** An element of the array of [Promise.allSettled]. *)
Inductive Settled (A : Type) : Type :=
  | Fulfilled (value : A)
  | Rejected (reason : string).
Arguments Fulfilled {A} value.
Arguments Rejected {A} reason.

(** [try { ... } catch (error) { ... }] *)
Definition try_catch {A} (body : io A) (handler : string → io A) : io A :=
  match body with
  | Ok a => Ok a
  | Throw msg => handler msg
  end.

(** The world a run leaves: the only mutation is the final write, so a run
    that throws leaves the world as it was. *)
Definition worldAfter (w : World) (run : io (World * nat)) : World :=
  match run with
  | Ok (w', _) => w'
  | Throw _ => w
  end.

(** The async callback: the world after it, and what it resolves to. *)
Definition runPackage (env : EsDate.Env) (w : World) (packageName : string)
    : World * io PackageResult :=
  let run := processPackage env w packageName in
  (worldAfter w run,
   try_catch
     (_ ← run; Ok (mkResult packageName true None))
     (λ error, Ok (mkResult packageName false (Some error)))).

(** What a package run on its own, from the world [w], is recorded as. *)
Definition packageOutcome (env : EsDate.Env) (w : World)
    (packageName : string) : PackageResult :=
  match processPackage env w packageName with
  | Ok _ => mkResult packageName true None
  | Throw msg => mkResult packageName false (Some msg)
  end.

(** The file of a package after it has run on its own from the world [w]:
    rewritten on success, left as it was on failure. *)
Definition packageFile (env : EsDate.Env) (w : World)
    (packageName : string) : option (io Merge.HistoricalData) :=
  match processPackage env w packageName with
  | Ok (w', _) => dataFiles w' !! dataPath packageName
  | Throw _ => dataFiles w !! dataPath packageName
  end.

Definition settle {A} (c : io A) : Settled A :=
  match c with
  | Ok a => Fulfilled a
  | Throw msg => Rejected msg
  end.

(** [Promise.allSettled(PACKAGES.map(...))].  The callbacks are started
    together and interleave at their [await]s; each touches only its own
    file under [data], so the run is modelled in the order of the list. *)
Fixpoint allSettled (env : EsDate.Env) (w : World) (packages : list string)
    : World * list (Settled PackageResult) :=
  match packages with
  | [] => (w, [])
  | packageName :: rest =>
      let (w1, r) := runPackage env w packageName in
      let (w2, rs) := allSettled env w1 rest in
      (w2, settle r :: rs)
  end.

Record Summary := mkSummary {
  results : list (Settled PackageResult);
  successful : nat;
  failed : Z;
}.

Definition isSuccess (r : Settled PackageResult) : bool :=
  match r with
  | Fulfilled value => res_success value
  | Rejected _ => false
  end.

Definition main (env : EsDate.Env) (w : World) : World * Summary :=
  let (w', results) := allSettled env w PACKAGES in
  let successful := length (filter (λ r, isSuccess r = true) results) in
  let failed := Z.of_nat (length PACKAGES) - Z.of_nat successful in
  (w', mkSummary results successful failed).

End Batch.

(** ** Example inputs *)

Module Examples.
Import Merge EsDate Fs.

(** A process whose local time is UTC, and one at UTC+01:00. *)
Definition utc : Env := mkEnv 0 Date_parse_date_only.
Definition paris : Env := mkEnv 3600000 Date_parse_date_only.

(** One timestamp, 2024-01-21, and one tracked version. *)
Definition series : HistoricalData :=
  mkHistoricalData "react" [1705795200000] {[ "18.2.0" := [4] ]}.

(** Seeds: nothing for the package on 2024-01-07, data on the 8th and the
    9th; the file of the 14th is missing. *)
Definition seeds (fileName : string) : read (gmap string NpmDownloadResponse) :=
  if String.eqb fileName "2024-01-07.json" then Content ∅
  else if String.eqb fileName "2024-01-08.json" then
    Content {[ "react" := mkResponse "react" (Some {[ "18.2.0" := 5 ]}) ]}
  else if String.eqb fileName "2024-01-09.json" then
    Content {[ "react" := mkResponse "react" (Some {[ "18.2.0" := 9 ]}) ]}
  else Enoent.

Definition dates : list string :=
  ["2024-01-07.json"; "2024-01-08.json"; "2024-01-09.json"; "2024-01-14.json"].

Definition world : World :=
  mkWorld (Content ((λ d, (d, true)) <$> dates)) seeds
    {[ dataPath "react" := Ok series ]} (λ _, None) (λ _, None).

Definition weekMap : JsMap.t (list string) :=
  [("2024-01-07", ["2024-01-07.json"; "2024-01-08.json"; "2024-01-09.json"]);
   ("2024-01-14", ["2024-01-14.json"])].

End Examples.

(** ** The earlier version of the script: the Wednesday of every week

    [merge-alex-stats.ts] shares every function with the version above but
    two: its [getSeedDates] leaves the listing unsorted, and its
    [processPackage] has no week buckets and merges every date that is a
    Wednesday. *)

Module WednesdayScript.
Import Merge EsDate Fs Orchestrator.

Definition getSeedDates (w : World) : io (option (list string)) :=
  match seedDir w with
  | Content content => Ok (Some ((filter (λ e, e.2 = true) content).*1))
  | Enoent => Ok None
  | ReadError msg => Throw msg
  end.

(** [day !== 3], where [day] is [NaN] for an invalid date. *)
Definition notWednesday (day : option Z) : bool :=
  match day with
  | Some d => negb (d =? 3)
  | None => true
  end.

(** The loop over the dates.  A date that passes the test on [day] is
    valid, so the [NaN] branch of [getTime] is never taken. *)
Fixpoint scanDates (env : Env) (w : World) (packageName : string)
    (dates : list string) (st : HistoricalData * nat)
    : io (HistoricalData * nat) :=
  match dates with
  | [] => Ok st
  | date :: rest =>
      let timestamp := new_Date_string env (split_head "." date) in
      let day := getUTCDay timestamp in
      if notWednesday day then scanDates env w packageName rest st
      else
        data ← readSeedData w date;
        match packageDownloads packageName data with
        | None => scanDates env w packageName rest st
        | Some newDownloads =>
            match getTime timestamp with
            | Some t =>
                scanDates env w packageName rest
                  (updateHistoricalData newDownloads t st.1, S st.2)
            | None => Throw "NaN timestamp"
            end
        end
  end.

(** Returns the world after the write and [dayAdded]. *)
Definition processPackage (env : Env) (w : World) (packageName : string)
    : io (World * nat) :=
  dates ← getSeedDates w;
  match dates with
  | None => Throw "Seed folder not found"
  | Some dates =>
      let filePath := dataPath packageName in
      _ ← mkdir w (dirname filePath);
      existingData ← readExistingData w filePath;
      match existingData with
      | None => Throw (String.app "existing data not found for " packageName)
      | Some existingData =>
          r ← scanDates env w packageName dates (existingData, O);
          w' ← writeFile w filePath r.1;
          Ok (w', r.2)
      end
  end.

(** What one date contributes: its observation when it is a Wednesday
    with data for the package, nothing otherwise. *)
Definition wednesdayObservation (env : Env) (w : World)
    (packageName date : string) : option (Z * gmap string Z) :=
  t ← new_Date_string env (split_head "." date);
  if WeekDay t =? 3
  then newDownloads ← dataOn w packageName date; Some (t, newDownloads)
  else None.

End WednesdayScript.

(** ** Predicates on buckets *)

Module BucketProps.
Import EsDate Bucketizer.

(** What holds of every bucket: it is not empty and the week key of each
    of its dates is its key. *)
Definition goodBucket (env : Env) (e : string * list string) : Prop :=
  e.2 ≠ []
  ∧ Forall (λ d, getWeekKey env (new_Date_string env (split_head "." d))
                 = Ok e.1) e.2.

End BucketProps.

(** ** More example inputs *)

Module MoreExamples.
Import Merge EsDate Fs.

(** A process five hours west of UTC. *)
Definition new_york : Env := mkEnv (-18000000) Date_parse_date_only.

(** Two timestamps and two tracked versions, index aligned. *)
Definition twoVersions : HistoricalData :=
  mkHistoricalData "react" [10; 30] {[ "a" := [1; 3]; "b" := [4; 6] ]}.

(** A seed folder that does not exist. *)
Definition noSeeds : World :=
  mkWorld Enoent (λ _, Enoent) {[ dataPath "react" := Ok Examples.series ]}
    (λ _, None) (λ _, None).

(** A listing with a directory, in no particular order; 2024-01-03 and
    2024-01-10 are Wednesdays, and the file of the 4th cannot be parsed. *)
Definition listing : list (string * bool) :=
  [("2024-01-10.json", true); ("archive", false); ("2024-01-04.json", true);
   ("notes.txt", true); ("2024-01-03.json", true)].

Definition wednesdaySeeds (fileName : string)
    : read (gmap string NpmDownloadResponse) :=
  if String.eqb fileName "2024-01-03.json" then
    Content {[ "react" := mkResponse "react" (Some {[ "18.2.0" := 7 ]}) ]}
  else if String.eqb fileName "2024-01-10.json" then
    Content {[ "react" := mkResponse "react" (Some {[ "18.2.0" := 8 ]}) ]}
  else if String.eqb fileName "2024-01-04.json" then
    ReadError "Unexpected token"
  else Enoent.

Definition wednesdayWorld : World :=
  mkWorld (Content listing) wednesdaySeeds
    {[ dataPath "react" := Ok Examples.series ]} (λ _, None) (λ _, None).



(** Seeds with a file that cannot be parsed later in the week: nothing
    for the package on 2024-01-07, data on the 8th and the 9th, and a
    broken file on the 10th. *)
Definition brokenLaterSeeds (fileName : string)
    : read (gmap string NpmDownloadResponse) :=
  if String.eqb fileName "2024-01-10.json" then ReadError "Unexpected token"
  else Examples.seeds fileName.

Definition brokenLaterDates : list string :=
  ["2024-01-07.json"; "2024-01-08.json"; "2024-01-09.json";
   "2024-01-10.json"; "2024-01-14.json"].

Definition brokenLaterWorld : World :=
  mkWorld (Content ((λ d, (d, true)) <$> brokenLaterDates)) brokenLaterSeeds
    {[ dataPath "react" := Ok Examples.series ]} (λ _, None) (λ _, None).

Definition brokenLaterWeekMap : JsMap.t (list string) :=
  [("2024-01-07", ["2024-01-07.json"; "2024-01-08.json"; "2024-01-09.json";
                   "2024-01-10.json"]);
   ("2024-01-14", ["2024-01-14.json"])].

End MoreExamples.

(** * Properties *)

(** ** Arrays: [findIndex] and [splice] *)

Module JsArrayFacts.
Import JsArray.

Lemma findIndex_from_none {A} (p : A → bool) l i :
  Forall (λ y, p y = false) l → findIndex_from p l i = -1.
Proof.
  intros H. revert i. induction H as [|y l Hy _ IH]; intros i; simpl.
  - reflexivity.
  - rewrite Hy. apply IH.
Qed.

Lemma findIndex_from_found {A} (p : A → bool) l i n x :
  l !! n = Some x → p x = true → Forall (λ y, p y = false) (take n l) →
  findIndex_from p l i = i + Z.of_nat n.
Proof.
  revert i n. induction l as [|y l IH]; intros i [|n] Hx Hp Hbefore;
    simplify_eq/=.
  - rewrite Hp. lia.
  - inversion_clear Hbefore as [|? ? Hy Hrest]. rewrite Hy.
    rewrite (IH (i + 1) n) by done. lia.
Qed.

(** What [findIndex] returns: [-1] with no element satisfying [p], or the
    index of the first one. *)
Lemma findIndex_from_inv {A} (p : A → bool) l i :
  (findIndex_from p l i = -1 ∧ Forall (λ y, p y = false) l)
  ∨ (∃ n x, findIndex_from p l i = i + Z.of_nat n ∧ l !! n = Some x
            ∧ p x = true ∧ Forall (λ y, p y = false) (take n l)).
Proof.
  revert i. induction l as [|y l IH]; intros i; simpl.
  - left. split; [reflexivity | constructor].
  - destruct (p y) eqn:Hy.
    + right. exists 0%nat, y. repeat split; [lia | done | constructor].
    + destruct (IH (i + 1)) as [[-> Hall] | (n & x & -> & Hx & Hp & Hb)].
      * left. split; [reflexivity | by constructor].
      * right. exists (S n), x. repeat split; [lia | done | done |].
        by constructor.
Qed.

Lemma findIndex_inv {A} (p : A → bool) l :
  (findIndex p l = -1 ∧ Forall (λ y, p y = false) l)
  ∨ (∃ n x, findIndex p l = Z.of_nat n ∧ l !! n = Some x
            ∧ p x = true ∧ Forall (λ y, p y = false) (take n l)).
Proof.
  unfold findIndex.
  destruct (findIndex_from_inv p l 0) as [? | (n & x & H & ?)]; [by left|].
  right. exists n, x. by rewrite H.
Qed.

Lemma splice_start_le start len : (splice_start start len ≤ len)%nat.
Proof. unfold splice_start. destruct (start <? 0) eqn:E; lia. Qed.

Lemma splice_start_nonneg n len :
  (n ≤ len)%nat → splice_start (Z.of_nat n) len = n.
Proof. intros. unfold splice_start. destruct (Z.of_nat n <? 0) eqn:E; lia. Qed.

(** A start of [-1] is the index of the last element (0 on an empty array). *)
Lemma splice_start_minus_one len : splice_start (-1) len = pred len.
Proof. unfold splice_start. simpl. lia. Qed.

Lemma length_splice_insert {A} start (x : A) l :
  length (splice_insert start x l) = S (length l).
Proof.
  unfold splice_insert. pose proof (splice_start_le start (length l)).
  rewrite length_app, length_take. simpl. rewrite length_drop. lia.
Qed.

Lemma splice_insert_sublist {A} start (x : A) l :
  l `sublist_of` splice_insert start x l.
Proof.
  unfold splice_insert.
  rewrite <- (take_drop (splice_start start (length l)) l) at 1.
  apply sublist_app; [done | by apply sublist_cons].
Qed.

Lemma splice_insert_at {A} start (x : A) l :
  splice_insert start x l !! splice_start start (length l) = Some x.
Proof.
  unfold splice_insert. pose proof (splice_start_le start (length l)).
  rewrite lookup_app_r by (rewrite length_take; lia).
  rewrite length_take. by replace (_ - _)%nat with 0%nat by lia.
Qed.

(** Appending at [-1] puts the element in front of the last one. *)
Lemma splice_insert_minus_one_snoc {A} (x y : A) l :
  splice_insert (-1) x (l ++ [y]) = l ++ [x; y].
Proof.
  unfold splice_insert. rewrite splice_start_minus_one, length_app. simpl.
  replace (pred (length l + 1)) with (length l) by lia.
  by rewrite take_app_length, drop_app_length.
Qed.

End JsArrayFacts.

(** ** The merge engine *)

Module MergeFacts.
Import JsArray JsArrayFacts Merge.

Lemma addNewCounts_lookup i len (nd : gmap string Z)
    (d : gmap string (list Z)) v :
  addNewCounts i len nd d !! v =
    match nd !! v with
    | None => d !! v
    | Some c =>
        match d !! v with
        | None => Some (new_Array_fill len 0)
        | Some arr => Some (splice_insert i c arr)
        end
    end.
Proof.
  unfold addNewCounts. revert v.
  apply (map_fold_weak_ind (λ r (m : gmap string Z), ∀ v,
    r !! v = match m !! v with
             | None => d !! v
             | Some c => match d !! v with
                         | None => Some (new_Array_fill len 0)
                         | Some arr => Some (splice_insert i c arr)
                         end
             end)).
  - intros v. by rewrite lookup_empty.
  - intros k c m r Hk IH v.
    destruct (decide (k = v)) as [->|Hne].
    + rewrite lookup_insert_eq. rewrite (IH v), Hk.
      destruct (d !! v); by rewrite lookup_insert_eq.
    + rewrite (lookup_insert_ne m) by done. rewrite <- IH.
      destruct (r !! k); by rewrite lookup_insert_ne.
Qed.

Lemma fillMissing_fold_lookup i (nd : gmap string Z)
    (b m : gmap string (list Z)) v :
  map_fold (λ version (_ : list Z) acc,
      if truthy_count (nd !! version) then acc
      else alter (splice_insert i 0) version acc) b m !! v =
    match m !! v with
    | Some _ =>
        (λ arr, if truthy_count (nd !! v) then arr else splice_insert i 0 arr)
          <$> b !! v
    | None => b !! v
    end.
Proof.
  revert v.
  apply (map_fold_weak_ind (λ r (m : gmap string (list Z)), ∀ v,
    r !! v = match m !! v with
             | Some _ =>
                 (λ arr, if truthy_count (nd !! v) then arr
                         else splice_insert i 0 arr) <$> b !! v
             | None => b !! v
             end)).
  - intros v. by rewrite lookup_empty.
  - intros k x m' r Hk IH v.
    destruct (decide (k = v)) as [->|Hne].
    + rewrite lookup_insert_eq. specialize (IH v). rewrite Hk in IH.
      destruct (truthy_count (nd !! v)).
      * rewrite IH. by destruct (b !! v).
      * by rewrite lookup_alter_eq, IH.
    + rewrite (lookup_insert_ne m') by done. rewrite <- IH.
      destruct (truthy_count (nd !! k)); [done|].
      by rewrite lookup_alter_ne.
Qed.

Lemma fillMissing_lookup i (nd : gmap string Z) (d : gmap string (list Z)) v :
  fillMissing i nd d !! v =
    (λ arr, if truthy_count (nd !! v) then arr else splice_insert i 0 arr)
      <$> d !! v.
Proof.
  unfold fillMissing. rewrite fillMissing_fold_lookup. by destruct (d !! v).
Qed.

(** The guard of [updateHistoricalData], unfolded. *)
Lemma update_noop nd ts s :
  already_present ts (timestamps s) = true → updateHistoricalData nd ts s = s.
Proof.
  unfold already_present, updateHistoricalData. by intros ->.
Qed.

Lemma update_insert nd ts s :
  already_present ts (timestamps s) = false →
  updateHistoricalData nd ts s =
    let i := findIndex (λ value, ts <=? value) (timestamps s) in
    let tss := splice_insert i ts (timestamps s) in
    {| package := package s; timestamps := tss;
       downloads := fillMissing i nd
                      (addNewCounts i (length tss) nd (downloads s)) |}.
Proof.
  unfold already_present, updateHistoricalData. by intros ->.
Qed.

(** Every array of [downloads] after a call that inserts, by version. *)
Lemma update_downloads_lookup nd ts s v :
  already_present ts (timestamps s) = false →
  let i := findIndex (λ value, ts <=? value) (timestamps s) in
  downloads (updateHistoricalData nd ts s) !! v =
    match downloads s !! v, nd !! v with
    | Some arr, None => Some (splice_insert i 0 arr)
    | Some arr, Some c =>
        if c =? 0 then Some (splice_insert i 0 (splice_insert i c arr))
        else Some (splice_insert i c arr)
    | None, Some c =>
        let zeros := new_Array_fill (S (length (timestamps s))) 0 in
        if c =? 0 then Some (splice_insert i 0 zeros) else Some zeros
    | None, None => None
    end.
Proof.
  intros Hp. rewrite (update_insert _ _ _ Hp). simpl.
  rewrite fillMissing_lookup, addNewCounts_lookup, length_splice_insert.
  destruct (downloads s !! v) as [arr|], (nd !! v) as [c|]; simpl; try done;
    by destruct (c =? 0).
Qed.


(** The elements in front of the place where [splice] puts the timestamp
    are all smaller than it. *)
Lemma before_insert_smaller ts (l : list Z) :
  let i := findIndex (λ value, ts <=? value) l in
  Forall (λ y, (ts <=? y) = false) (take (splice_start i (length l)) l).
Proof.
  intros i. subst i.
  destruct (findIndex_inv (λ value, ts <=? value) l)
    as [[-> Hall] | (n & x & -> & Hx & _ & Hb)].
  - by apply Forall_take.
  - apply lookup_lt_Some in Hx. rewrite splice_start_nonneg by lia. done.
Qed.

Lemma findIndex_after_insert ts (l : list Z) :
  let i := findIndex (λ value, ts <=? value) l in
  findIndex (λ value, ts <=? value) (splice_insert i ts l)
  = Z.of_nat (splice_start i (length l)).
Proof.
  intros i. unfold findIndex.
  rewrite (findIndex_from_found _ _ 0 (splice_start i (length l)) ts).
  - lia.
  - apply splice_insert_at.
  - lia.
  - unfold splice_insert. pose proof (splice_start_le i (length l)).
    rewrite take_app_le by (rewrite length_take; lia).
    rewrite take_take, Nat.min_id. apply before_insert_smaller.
Qed.

(** After a call the timestamp stands at the position [findIndex] finds. *)
Lemma already_present_after_insert ts (l : list Z) :
  already_present ts
    (splice_insert (findIndex (λ value, ts <=? value) l) ts l) = true.
Proof.
  unfold already_present. rewrite findIndex_after_insert.
  rewrite Nat2Z.id, splice_insert_at.
  rewrite bool_decide_eq_true_2 by done.
  rewrite andb_true_r. apply Z.leb_le. lia.
Qed.

Lemma already_present_after_update nd ts s :
  already_present ts (timestamps (updateHistoricalData nd ts s)) = true.
Proof.
  destruct (already_present ts (timestamps s)) eqn:Hp.
  - by rewrite update_noop.
  - rewrite update_insert by done. simpl. apply already_present_after_insert.
Qed.

Lemma insertPosition_le ts l : (insertPosition ts l ≤ length l)%nat.
Proof. induction l as [|x l IH]; simpl; [lia|]. destruct (ts <=? x); lia. Qed.

Lemma findIndex_from_insertPosition ts (l : list Z) i :
  Exists (λ y, ts ≤ y) l →
  findIndex_from (λ value, ts <=? value) l i
  = i + Z.of_nat (insertPosition ts l).
Proof.
  intros H. revert i. induction H as [y l Hy | y l _ IH]; intros i; simpl.
  - rewrite (proj2 (Z.leb_le _ _) Hy). lia.
  - destruct (ts <=? y); [lia|]. rewrite IH. lia.
Qed.

(** When some timestamp is at least the incoming one, [findIndex] is the
    position of the spec. *)
Lemma findIndex_insertPosition ts (l : list Z) :
  Exists (λ y, ts ≤ y) l →
  findIndex (λ value, ts <=? value) l = Z.of_nat (insertPosition ts l).
Proof. intros. unfold findIndex. by rewrite findIndex_from_insertPosition. Qed.

Lemma update_timestamps_found nd ts s :
  Exists (λ y, ts ≤ y) (timestamps s) →
  already_present ts (timestamps s) = false →
  timestamps (updateHistoricalData nd ts s)
  = take (insertPosition ts (timestamps s)) (timestamps s)
    ++ ts :: drop (insertPosition ts (timestamps s)) (timestamps s).
Proof.
  intros Hex Hp. rewrite update_insert by done. simpl.
  rewrite findIndex_insertPosition by done. unfold splice_insert.
  by rewrite splice_start_nonneg by apply insertPosition_le.
Qed.

(** When every timestamp is smaller, [findIndex] is [-1] and [splice]
    counts from the end: the timestamp lands in front of the last one. *)
Lemma update_timestamps_all_smaller nd ts s l y :
  timestamps s = l ++ [y] → Forall (λ x, x < ts) (l ++ [y]) →
  timestamps (updateHistoricalData nd ts s) = l ++ [ts; y].
Proof.
  intros Hl Hall.
  assert (Hf : findIndex (λ value, ts <=? value) (timestamps s) = -1).
  { apply findIndex_from_none. rewrite Hl.
    eapply Forall_impl; [exact Hall|]. intros x Hx. simpl in *.
    apply Z.leb_gt. lia. }
  rewrite update_insert.
  - simpl. rewrite Hf, Hl. apply splice_insert_minus_one_snoc.
  - unfold already_present. by rewrite Hf.
Qed.

Lemma update_timestamps_empty nd ts s :
  timestamps s = [] → timestamps (updateHistoricalData nd ts s) = [ts].
Proof.
  intros Hl. unfold updateHistoricalData. rewrite Hl. reflexivity.
Qed.


(** *** Sorted order, where the insertion index is found *)

Lemma strictly_increasing_insert ts (l : list Z) n x :
  strictly_increasing l → l !! n = Some x → ts < x →
  Forall (λ y, y < ts) (take n l) →
  strictly_increasing (take n l ++ ts :: drop n l).
Proof.
  unfold strictly_increasing. intros Hs Hx Hlt Hb.
  rewrite <- (take_drop n l) in Hs.
  apply StronglySorted_app in Hs as (Hcross & Hs1 & Hs2).
  assert (Hd : drop n l = x :: drop (S n) l) by by apply drop_S.
  apply StronglySorted_app. split_and!.
  - intros a b Ha Hb'.
    rewrite Forall_forall in Hb. specialize (Hb _ Ha). simpl in Hb.
    apply elem_of_cons in Hb' as [->|Hb']; [done|].
    rewrite Hd in Hb'. apply elem_of_cons in Hb' as [->|Hb']; [lia|].
    rewrite Hd in Hs2. apply StronglySorted_inv in Hs2 as [_ Hall].
    rewrite Forall_forall in Hall.
    specialize (Hall _ Hb'). lia.
  - done.
  - constructor; [done|]. rewrite Hd. constructor; [done|].
    rewrite Hd in Hs2. apply StronglySorted_inv in Hs2 as [_ Hall].
    eapply Forall_impl; [exact Hall|]. intros b Hb'. simpl in *. lia.
Qed.

(** A merge keeps a strictly increasing sequence strictly increasing when
    some existing timestamp is at least the incoming one. *)
Lemma update_sorted_found nd ts s :
  strictly_increasing (timestamps s) →
  Exists (λ y, ts ≤ y) (timestamps s) →
  strictly_increasing (timestamps (updateHistoricalData nd ts s)).
Proof.
  intros Hs Hex.
  destruct (already_present ts (timestamps s)) eqn:Hp.
  { by rewrite update_noop. }
  rewrite update_insert by done. simpl.
  pose proof (before_insert_smaller ts (timestamps s)) as Hb. simpl in Hb.
  unfold already_present in Hp. unfold splice_insert.
  destruct (findIndex_inv (λ value, ts <=? value) (timestamps s))
    as [[Hf Hall] | (n & x & Hf & Hx & Hge & _)].
  { exfalso. apply Exists_exists in Hex as (y & Hy & Hle).
    rewrite Forall_forall in Hall. specialize (Hall _ Hy). simpl in Hall.
    apply Z.leb_gt in Hall. lia. }
  rewrite Hf in Hp, Hb |- *. rewrite Nat2Z.id in Hp.
  pose proof (lookup_lt_Some _ _ _ Hx).
  rewrite splice_start_nonneg in Hb |- * by lia.
  apply (strictly_increasing_insert ts _ n x); [done..| |].
  - apply Z.leb_le in Hge.
    assert (x ≠ ts); [|lia]. intros ->.
    rewrite Hx, bool_decide_eq_true_2 in Hp by done.
    rewrite andb_true_r in Hp. apply Z.leb_gt in Hp. lia.
  - eapply Forall_impl; [exact Hb|]. intros y Hy. simpl in *.
    apply Z.leb_gt in Hy. lia.
Qed.

(** *** Index alignment, for counts that are not zero *)

Lemma update_aligned_nonzero nd ts s :
  map_Forall (λ _ c, c ≠ 0) nd → aligned s →
  aligned (updateHistoricalData nd ts s).
Proof.
  intros Hnz Hal.
  destruct (already_present ts (timestamps s)) eqn:Hp.
  { by rewrite update_noop. }
  intros v arr' Hv. rewrite update_downloads_lookup in Hv by done.
  rewrite update_insert by done. simpl. rewrite length_splice_insert.
  destruct (downloads s !! v) as [arr|] eqn:Hd.
  - pose proof (Hal v arr Hd) as Hlen. simpl in Hlen.
    destruct (nd !! v) as [c|] eqn:Hc.
    + pose proof (Hnz v c Hc) as Hc0. simpl in Hc0.
      apply Z.eqb_neq in Hc0. rewrite Hc0 in Hv. simpl in Hv. simplify_eq.
      rewrite length_splice_insert. lia.
    + simplify_eq. rewrite length_splice_insert. lia.
  - destruct (nd !! v) as [c|] eqn:Hc; [|done].
    pose proof (Hnz v c Hc) as Hc0. simpl in Hc0.
    apply Z.eqb_neq in Hc0. rewrite Hc0 in Hv. cbv zeta in Hv. simplify_eq.
    unfold new_Array_fill. by rewrite length_replicate.
Qed.

(** *** A version seen for the first time *)

Lemma update_new_version nd ts s v c :
  already_present ts (timestamps s) = false →
  downloads s !! v = None → nd !! v = Some c → c ≠ 0 →
  downloads (updateHistoricalData nd ts s) !! v
  = Some (replicate (S (length (timestamps s))) 0).
Proof.
  intros Hp Hd Hc Hc0. rewrite update_downloads_lookup by done.
  rewrite Hd, Hc. apply Z.eqb_neq in Hc0. by rewrite Hc0.
Qed.


(** *** The claims about a merge call *)

(** C1.  The position searched for is the first index whose value is at
    least the timestamp, but a timestamp larger than every existing one is
    not appended: on [[1; 2]] the timestamp [3] ends up in front of the
    last element, because the [-1] of [findIndex] is handed to [splice]. *)
Theorem C1_larger_timestamp_lands_before_last :
  let s := mkHistoricalData "p" [1; 2] ∅ in
  Forall (λ t, t < 3) (timestamps s)
  ∧ insertPosition 3 (timestamps s) = 2%nat
  ∧ findIndex (λ value, 3 <=? value) (timestamps s) = -1
  ∧ timestamps (updateHistoricalData ∅ 3 s) = [1; 3; 2].
Proof.
  simpl. split_and!; try reflexivity. repeat constructor.
Qed.

(** C2.  Sorted order is lost by the same call: [[1; 2]] is strictly
    increasing, and after merging timestamp [3] the sequence [[1; 3; 2]]
    is not. *)
Theorem C2_sorted_order_broken_by_append :
  let s := mkHistoricalData "p" [1; 2] ∅ in
  strictly_increasing (timestamps s)
  ∧ ¬ strictly_increasing (timestamps (updateHistoricalData ∅ 3 s)).
Proof.
  split.
  - by apply (bool_decide_unpack _).
  - by apply (bool_decide_eq_false_1 _).
Qed.

(** C3.  A version seen for the first time gets an array of zeros of the
    new length, and its observed count is stored nowhere: merging count
    [7] at timestamp [5] into a series with the one timestamp [10] leaves
    [[0; 0]] where [[7; 0]] is expected, and merging count [5] at the end
    (timestamp [20]) leaves [[0; 0]] where [[0; 5]] is expected. *)
Theorem C3_new_version_count_is_dropped :
  let s := mkHistoricalData "p" [10] ∅ in
  downloads s !! "1.0.0" = None
  ∧ downloads (updateHistoricalData {[ "1.0.0" := 7 ]} 5 s) !! "1.0.0"
    = Some [0; 0]
  ∧ downloads (updateHistoricalData {[ "1.0.0" := 5 ]} 20 s) !! "1.0.0"
    = Some [0; 0].
Proof. by vm_compute. Qed.

(** C4.  A count of zero breaks index alignment: the first loop inserts
    the [0], and the second loop, which tests the count for truthiness,
    inserts another one.  The series below is aligned before the call and
    has three counts for two timestamps after it. *)
Theorem C4_zero_count_breaks_alignment :
  let s := mkHistoricalData "p" [10] {[ "a" := [3] ]} in
  let s' := updateHistoricalData {[ "a" := 0 ]} 5 s in
  aligned s
  ∧ timestamps s' = [5; 10]
  ∧ downloads s' !! "a" = Some [0; 0; 3]
  ∧ ¬ aligned s'.
Proof.
  split_and!.
  - by apply (bool_decide_unpack _).
  - reflexivity.
  - by vm_compute.
  - by apply (bool_decide_eq_false_1 _).
Qed.

(** C5.  Idempotence: merging the same timestamp and counts twice gives
    the series that merging them once gives, and a call that finds the
    timestamp at the position it searched changes nothing. *)
Theorem C5_merge_idempotent nd ts s :
  updateHistoricalData nd ts (updateHistoricalData nd ts s)
  = updateHistoricalData nd ts s
  ∧ (already_present ts (timestamps s) = true →
     updateHistoricalData nd ts s = s).
Proof.
  split.
  - apply update_noop, already_present_after_update.
  - apply update_noop.
Qed.

Lemma C5_merge_idempotent_witness :
  let s := mkHistoricalData "p" [5; 10] {[ "a" := [1; 2] ]} in
  already_present 10 (timestamps s) = true
  ∧ updateHistoricalData {[ "a" := 9 ]} 10
      (updateHistoricalData {[ "a" := 9 ]} 10 s)
    = updateHistoricalData {[ "a" := 9 ]} 10 s
  ∧ updateHistoricalData {[ "a" := 9 ]} 10 s = s.
Proof.
  intros s.
  destruct (C5_merge_idempotent {[ "a" := 9 ]} 10 s) as [H1 H2].
  split; [reflexivity|]. split; [exact H1 | apply H2; reflexivity].
Defined.

(** [splice] with a start that is not negative inserts at that index, and
    at the end of an array that is shorter. *)
Lemma splice_insert_nat {A} (p : nat) (x : A) l :
  splice_insert (Z.of_nat p) x l = take p l ++ x :: drop p l.
Proof.
  unfold splice_insert, splice_start.
  destruct (Z.ltb_spec (Z.of_nat p) 0) as [?|_]; [lia|].
  destruct (decide (p ≤ length l)%nat) as [Hle|Hgt].
  - by replace (Z.to_nat (Z.min (Z.of_nat p) (Z.of_nat (length l))))
      with p by lia.
  - replace (Z.to_nat (Z.min (Z.of_nat p) (Z.of_nat (length l))))
      with (length l) by lia.
    by rewrite !take_ge, !drop_ge by lia.
Qed.

(** The zero-fill rule holds on a call that inserts, when some existing
    timestamp is at least the incoming one and no observed count is
    zero. *)
Lemma update_zero_fill_found nd ts s :
  already_present ts (timestamps s) = false →
  Exists (λ y, ts ≤ y) (timestamps s) →
  map_Forall (λ _ c, c ≠ 0) nd →
  zero_fill_claim nd ts s.
Proof.
  intros Hp Hex Hnz v arr Hd.
  rewrite update_downloads_lookup by done. rewrite Hd.
  rewrite findIndex_insertPosition by done.
  destruct (nd !! v) as [c|] eqn:Hc; simpl.
  - specialize (Hnz v c Hc). simpl in Hnz. apply Z.eqb_neq in Hnz.
    by rewrite Hnz, splice_insert_nat.
  - by rewrite splice_insert_nat.
Qed.

(** C6.  On calls that insert, the zero-fill rule fails in two ways.
    When every existing timestamp is smaller than the incoming one, the
    insertion position is the end, and the [0] of a tracked version that
    the observation omits lands in front of its last count: [[7; 8]]
    becomes [[7; 0; 8]], not [[7; 8; 0]].  And a tracked version observed
    with the count [0] gets two entries, not exactly one: [[3]] becomes
    [[0; 0; 3]]. *)
Theorem C6_zero_fill_misplaced_or_doubled :
  let s := mkHistoricalData "p" [1; 2] {[ "a" := [7; 8] ]} in
  let r := mkHistoricalData "p" [10] {[ "a" := [3] ]} in
  (already_present 3 (timestamps s) = false
   ∧ insertPosition 3 (timestamps s) = 2%nat
   ∧ downloads (updateHistoricalData ∅ 3 s) !! "a" = Some [7; 0; 8]
   ∧ ¬ zero_fill_claim ∅ 3 s)
  ∧ (already_present 5 (timestamps r) = false
     ∧ insertPosition 5 (timestamps r) = 0%nat
     ∧ downloads (updateHistoricalData {[ "a" := 0 ]} 5 r) !! "a"
       = Some [0; 0; 3]
     ∧ ¬ zero_fill_claim {[ "a" := 0 ]} 5 r).
Proof.
  intros s r. split; split_and!; try (vm_compute; reflexivity).
  - intros H. specialize (H "a" [7; 8] eq_refl). vm_compute in H.
    discriminate.
  - intros H. specialize (H "a" [3] eq_refl). vm_compute in H.
    discriminate.
Qed.

(** C10.  A merge call only inserts: the package name is unchanged, the
    old timestamps are a subsequence of the new ones, every tracked
    version is still tracked, and its old counts are a subsequence of its
    new counts. *)
Theorem C10_merge_is_insert_only nd ts s :
  let s' := updateHistoricalData nd ts s in
  package s' = package s
  ∧ timestamps s `sublist_of` timestamps s'
  ∧ ∀ v arr, downloads s !! v = Some arr →
      ∃ arr', downloads s' !! v = Some arr' ∧ arr `sublist_of` arr'.
Proof.
  intros s'. subst s'.
  destruct (already_present ts (timestamps s)) eqn:Hp.
  { rewrite update_noop by done. split_and!; [done..|]. eauto. }
  split_and!.
  - by rewrite update_insert.
  - rewrite update_insert by done. apply splice_insert_sublist.
  - intros v arr Hd. rewrite update_downloads_lookup by done. rewrite Hd.
    destruct (nd !! v) as [c|]; [destruct (c =? 0)|]; eexists; split;
      try reflexivity; try apply splice_insert_sublist.
    etrans; apply splice_insert_sublist.
Qed.

End MergeFacts.

(** ** The calendar *)

Module CalendarFacts.
Import EsDate.

(** [YearFromDay] is the year of the day: the largest year that starts on
    or before it. *)
Lemma YearFromDay_spec day :
  DayFromYear (YearFromDay day) ≤ day < DayFromYear (YearFromDay day + 1).
Proof.
  unfold YearFromDay. cbv zeta.
  set (y0 := 1970 + day * 400 / 146097).
  assert (H0 : DayFromYear (y0 - 1) ≤ day < DayFromYear (y0 + 2)).
  { unfold DayFromYear, y0. Z.div_mod_to_equations. lia. }
  destruct (day <? DayFromYear y0) eqn:E1.
  - apply Z.ltb_lt in E1. replace (y0 - 1 + 1) with y0 by lia. lia.
  - apply Z.ltb_ge in E1. destruct (DayFromYear (y0 + 1) <=? day) eqn:E2.
    + apply Z.leb_le in E2. replace (y0 + 1 + 1) with (y0 + 2) by lia. lia.
    + apply Z.leb_gt in E2. lia.
Qed.

Lemma DaysInYear_spec y : DayFromYear (y + 1) - DayFromYear y = DaysInYear y.
Proof.
  unfold DayFromYear, DaysInYear.
  destruct (Z.eqb_spec (y mod 4) 0) as [E4|E4];
    destruct (Z.eqb_spec (y mod 100) 0) as [E100|E100];
    destruct (Z.eqb_spec (y mod 400) 0) as [E400|E400]; cbn [negb];
    Z.div_mod_to_equations; lia.
Qed.

Lemma DayWithinYear_range t :
  0 ≤ DayWithinYear t < DaysInYear (YearFromTime t).
Proof.
  unfold DayWithinYear, YearFromTime. rewrite <- DaysInYear_spec.
  pose proof (YearFromDay_spec (Day t)). lia.
Qed.

End CalendarFacts.

(** ** The week key *)

Module WeekKeyFacts.
Import EsDate Bucketizer.

Lemma MonthFromTime_range t : 0 ≤ MonthFromTime t ≤ 11.
Proof.
  unfold MonthFromTime. cbv zeta.
  repeat (match goal with |- context [if ?b then _ else _] => destruct b end);
    lia.
Qed.

(** [MakeDay] on the year and month of [t] counts days from the first of
    that month: the date of [t] shifted by [k] days is [k] days from [t]. *)
Lemma MakeDay_fields t k :
  MakeDay (YearFromTime t) (MonthFromTime t) (DateFromTime t + k) = Day t + k.
Proof.
  pose proof (MonthFromTime_range t) as Hm.
  unfold MakeDay, DateFromTime, DayWithinYear, InLeapYear. cbv zeta.
  rewrite (Z.div_small (MonthFromTime t) 12) by lia.
  rewrite (Z.mod_small (MonthFromTime t) 12) by lia.
  rewrite Z.add_0_r.
  generalize (monthStart (if DaysInYear (YearFromTime t) =? 366 then 1 else 0)
                (MonthFromTime t)), (DayFromYear (YearFromTime t)), (Day t).
  intros; lia.
Qed.

Lemma Day_shift t k : Day (t + k * msPerDay) = Day t + k.
Proof. unfold Day. by rewrite Z.div_add. Qed.

Lemma TimeWithinDay_shift t k :
  TimeWithinDay (t + k * msPerDay) = TimeWithinDay t.
Proof. unfold TimeWithinDay. by rewrite Z.mod_add. Qed.

Lemma Day_midnight day : Day (day * msPerDay) = day.
Proof. unfold Day. by rewrite Z.div_mul. Qed.

Lemma MakeDate_Day t : MakeDate (Day t) (TimeWithinDay t) = t.
Proof.
  unfold MakeDate, Day, TimeWithinDay.
  pose proof (Z.div_mod t msPerDay ltac:(done)). lia.
Qed.

(** [setUTCDate(getUTCDate() - dayOfWeek)] moves a valid date back by
    [dayOfWeek] whole days. *)
Lemma setUTCDate_back t :
  setUTCDate (Some t) (js_sub (getUTCDate (Some t)) (getUTCDay (Some t)))
  = TimeClip (t - WeekDay t * msPerDay).
Proof.
  simpl. f_equal.
  replace (DateFromTime t - WeekDay t) with (DateFromTime t + - WeekDay t)
    by lia.
  rewrite MakeDay_fields. pose proof (MakeDate_Day t) as Ht.
  unfold MakeDate in *. generalize dependent (Day t). intros; lia.
Qed.

Lemma TimeClip_in_range t :
  Z.abs t ≤ 8640000000000000 → TimeClip t = Some t.
Proof. intros H. unfold TimeClip. by rewrite (proj2 (Z.leb_le _ _) H). Qed.

Lemma digit_char_not_T d : 0 ≤ d < 10 → Ascii.eqb (digit_char d) "T" = false.
Proof.
  intros H.
  assert (d = 0 ∨ d = 1 ∨ d = 2 ∨ d = 3 ∨ d = 4 ∨ d = 5 ∨ d = 6 ∨ d = 7
          ∨ d = 8 ∨ d = 9) as Hd by lia.
  repeat (destruct Hd as [->|Hd]; [reflexivity|]). by subst.
Qed.

Lemma split_head_pad_digits n z acc :
  split_head "T" (pad_digits n z acc) = pad_digits n z (split_head "T" acc).
Proof.
  revert z acc. induction n as [|n IH]; intros z acc; [done|].
  cbn [pad_digits]. rewrite IH. cbn [split_head].
  rewrite digit_char_not_T; [done|]. by apply Z.mod_pos_bound.
Qed.

Lemma split_head_year_string y acc :
  split_head "T" (year_string y acc) = year_string y (split_head "T" acc).
Proof.
  unfold year_string. destruct (_ && _).
  - apply split_head_pad_digits.
  - cbn [split_head]. rewrite split_head_pad_digits. by destruct (y <? 0).
Qed.

(** The date part of [toISOString] of a valid date. *)
Lemma toISOString_date_part t :
  toISOString (Some t) ≫= (λ iso, Ok (split_head "T" iso))
  = Ok (year_string (YearFromTime t)
         (String "-" (pad_digits 2 (MonthFromTime t + 1)
           (String "-" (pad_digits 2 (DateFromTime t) EmptyString))))).
Proof.
  unfold toISOString. cbn [mbind io_bind]. f_equal.
  rewrite split_head_year_string. cbn [split_head Ascii.eqb Bool.eqb].
  rewrite split_head_pad_digits. cbn [split_head Ascii.eqb Bool.eqb].
  rewrite split_head_pad_digits. reflexivity.
Qed.

(** The Sunday of the spec is a Sunday, and the week that begins with it
    contains the date. *)
Lemma utcSunday_spec t :
  WeekDay (utcSunday t * msPerDay) = 0
  ∧ utcSunday t ≤ Day t < utcSunday t + 7.
Proof.
  unfold utcSunday, WeekDay. rewrite Day_midnight.
  pose proof (Z.mod_pos_bound (Day t + 4) 7 ltac:(done)).
  split; [|lia].
  replace (Day t - (Day t + 4) mod 7 + 4)
    with ((Day t + 4) - (Day t + 4) mod 7) by lia.
  rewrite Zminus_mod, Zmod_mod, Z.sub_diag. reflexivity.
Qed.

(** In a process whose local time is UTC the week key is the UTC Sunday
    that begins the week of the date, for every date whose Sunday is
    still a time value and does not fall in one of the years 0 to 99,
    which the [Date] constructor reads as 1900 to 1999. *)
Lemma getWeekKey_utc env t :
  LocalTZA env = 0 →
  Z.abs (t - WeekDay t * msPerDay) ≤ 8640000000000000 →
  ¬ (0 ≤ YearFromDay (utcSunday t) ≤ 99) →
  getWeekKey env (Some t) = Ok (dateString (utcSunday t)).
Proof.
  intros Htz Hrange Hyear. unfold getWeekKey. cbv zeta.
  rewrite setUTCDate_back, TimeClip_in_range by done.
  set (s := t - WeekDay t * msPerDay) in *.
  assert (Hday : Day s = utcSunday t).
  { unfold s, utcSunday.
    replace (t - WeekDay t * msPerDay) with (t + - WeekDay t * msPerDay)
      by lia.
    rewrite Day_shift. lia. }
  assert (Hfull : MakeFullYear (YearFromTime s) = YearFromTime s).
  { unfold MakeFullYear, YearFromTime. rewrite Hday.
    destruct (0 <=? YearFromDay (utcSunday t)) eqn:E1;
      destruct (YearFromDay (utcSunday t) <=? 99) eqn:E2; try done.
    exfalso. apply Hyear. split; [by apply Z.leb_le | by apply Z.leb_le]. }
  assert (Honly : onlyDay env (Some s) = Some (utcSunday t * msPerDay)).
  { unfold onlyDay, new_Date_fields, getFullYear, getMonth, getDate,
      LocalTime, UTC.
    rewrite Htz. cbn [fmap option_fmap option_map mbind option_bind].
    rewrite !Z.add_0_r, Hfull.
    pose proof (MakeDay_fields s 0) as Hmk. rewrite !Z.add_0_r in Hmk.
    rewrite Hmk, Hday. unfold MakeDate, MakeTime.
    match goal with
    | |- TimeClip ?x = _ => replace x with (utcSunday t * msPerDay) by lia
    end.
    apply TimeClip_in_range.
    rewrite <- Hday. unfold Day, msPerDay in *.
    pose proof (Z.div_mod s 86400000 ltac:(done)).
    pose proof (Z.mod_pos_bound s 86400000 ltac:(done)). lia. }
  rewrite Honly. apply toISOString_date_part.
Qed.

(** With local time in UTC the three dates of the example fall into the
    weeks of 2024-01-07 and 2024-01-14. *)
Lemma batchDatesByWeek_utc_example :
  batchDatesByWeek Examples.utc ["2024-01-07"; "2024-01-08"; "2024-01-14"]
  = Ok [("2024-01-07", ["2024-01-07"; "2024-01-08"]);
        ("2024-01-14", ["2024-01-14"])].
Proof. vm_compute. reflexivity. Qed.

(** Even in UTC, a Sunday of the years 0 to 99 gets a key in 1900 to
    1999: [onlyDay] hands the year to the [Date] constructor. *)
Lemma getWeekKey_two_digit_year :
  getWeekKey Examples.utc (new_Date_string Examples.utc "0050-01-05")
  = Ok "1950-01-02".
Proof. vm_compute. reflexivity. Qed.

(** C8.  The week key depends on the time zone of the process: [onlyDay]
    truncates to local midnight and [toISOString] prints in UTC.  At
    UTC+01:00 the Monday 2024-01-08 gets the key 2024-01-06, a Saturday,
    and the three dates of the example get the keys 2024-01-06 and
    2024-01-13 instead of 2024-01-07 and 2024-01-14. *)
Theorem C8_week_key_is_saturday_east_of_utc :
  getWeekKey Examples.paris (new_Date_string Examples.paris "2024-01-08")
  = Ok "2024-01-06"
  ∧ dateString (utcSunday 1704672000000) = "2024-01-07"
  ∧ WeekDay <$> new_Date_string Examples.paris "2024-01-06" = Some 6
  ∧ batchDatesByWeek Examples.paris ["2024-01-07"; "2024-01-08"; "2024-01-14"]
    = Ok [("2024-01-06", ["2024-01-07"; "2024-01-08"]);
          ("2024-01-13", ["2024-01-14"])].
Proof. split_and!; vm_compute; reflexivity. Qed.

End WeekKeyFacts.

(** ** Week keys in string order are in chronological order *)

Module KeyOrderFacts.
Import EsDate Bucketizer CalendarFacts WeekKeyFacts.

Lemma digit_char_compare a b :
  0 ≤ a < 10 → 0 ≤ b < 10 →
  Ascii.compare (digit_char a) (digit_char b) = (a ?= b).
Proof.
  intros Ha Hb.
  assert (a = 0 ∨ a = 1 ∨ a = 2 ∨ a = 3 ∨ a = 4 ∨ a = 5 ∨ a = 6 ∨ a = 7
          ∨ a = 8 ∨ a = 9) as Ha' by lia.
  assert (b = 0 ∨ b = 1 ∨ b = 2 ∨ b = 3 ∨ b = 4 ∨ b = 5 ∨ b = 6 ∨ b = 7
          ∨ b = 8 ∨ b = 9) as Hb' by lia.
  clear Ha Hb.
  repeat (destruct Ha' as [->|Ha']); try subst a;
    repeat (destruct Hb' as [->|Hb']); try subst b; reflexivity.
Qed.

(** Zero-padded numbers of the same width compare as the numbers do, and
    then by what follows them. *)
Lemma pad_digits_compare n a b acc1 acc2 :
  0 ≤ a < 10 ^ Z.of_nat n → 0 ≤ b < 10 ^ Z.of_nat n →
  String.compare (pad_digits n a acc1) (pad_digits n b acc2)
  = match a ?= b with
    | Eq => String.compare acc1 acc2
    | c => c
    end.
Proof.
  revert a b acc1 acc2.
  induction n as [|n IH]; intros a b acc1 acc2 Ha Hb.
  - change (10 ^ Z.of_nat 0) with 1 in *.
    assert (a = 0) as -> by lia. assert (b = 0) as -> by lia. reflexivity.
  - rewrite Nat2Z.inj_succ, Z.pow_succ_r in Ha, Hb by lia.
    cbn [pad_digits].
    rewrite IH by (split; [apply Z.div_pos; lia
                          | apply Z.div_lt_upper_bound; lia]).
    pose proof (Z.div_mod a 10 ltac:(done)).
    pose proof (Z.div_mod b 10 ltac:(done)).
    pose proof (Z.mod_pos_bound a 10 ltac:(done)).
    pose proof (Z.mod_pos_bound b 10 ltac:(done)).
    destruct (Z.compare_spec (a / 10) (b / 10)) as [Hq|Hq|Hq].
    + cbn [String.compare]. rewrite digit_char_compare by lia.
      destruct (Z.compare_spec (a mod 10) (b mod 10)) as [Hr|Hr|Hr].
      * replace b with a by lia. by rewrite Z.compare_refl.
      * by rewrite (proj2 (Z.compare_lt_iff a b)) by lia.
      * by rewrite (proj2 (Z.compare_gt_iff a b)) by lia.
    + by rewrite (proj2 (Z.compare_lt_iff a b)) by lia.
    + by rewrite (proj2 (Z.compare_gt_iff a b)) by lia.
Qed.

Lemma DayFromYear_mono y1 y2 : y1 ≤ y2 → DayFromYear y1 ≤ DayFromYear y2.
Proof. intros H. unfold DayFromYear. Z.div_mod_to_equations. lia. Qed.

Lemma YearFromDay_mono d1 d2 : d1 ≤ d2 → YearFromDay d1 ≤ YearFromDay d2.
Proof.
  intros H. pose proof (YearFromDay_spec d1). pose proof (YearFromDay_spec d2).
  destruct (Z_le_gt_dec (YearFromDay d1) (YearFromDay d2)) as [|Hgt]; [done|].
  pose proof (DayFromYear_mono (YearFromDay d2 + 1) (YearFromDay d1)
                ltac:(lia)). lia.
Qed.

Lemma YearFromTime_midnight day : YearFromTime (day * msPerDay) = YearFromDay day.
Proof. unfold YearFromTime. by rewrite Day_midnight. Qed.

(** The fields of a date depend on the day only. *)
Lemma fields_of_Day t :
  YearFromTime (Day t * msPerDay) = YearFromTime t
  ∧ MonthFromTime (Day t * msPerDay) = MonthFromTime t
  ∧ DateFromTime (Day t * msPerDay) = DateFromTime t.
Proof.
  unfold DateFromTime, MonthFromTime, InLeapYear, DayWithinYear, YearFromTime.
  by rewrite Day_midnight.
Qed.

Lemma leap_cases y :
  (if DaysInYear y =? 366 then 1 else 0) = DaysInYear y - 365
  ∧ (DaysInYear y = 365 ∨ DaysInYear y = 366).
Proof.
  unfold DaysInYear.
  destruct (negb (y mod 4 =? 0)), (negb (y mod 100 =? 0)),
    (negb (y mod 400 =? 0)); simpl; lia.
Qed.

(** The month and the date of a day number, from its place in the year. *)
Lemma date_fields day :
  let t := day * msPerDay in
  let leap := DaysInYear (YearFromDay day) - 365 in
  let dwy := day - DayFromYear (YearFromDay day) in
  0 ≤ MonthFromTime t ≤ 11
  ∧ 1 ≤ DateFromTime t ≤ 31
  ∧ monthStart leap (MonthFromTime t) + DateFromTime t - 1 = dwy
  ∧ (MonthFromTime t < 11 →
     dwy < monthStart leap (MonthFromTime t + 1)).
Proof.
  intros t leap dwy.
  pose proof (DayWithinYear_range t) as Hr.
  pose proof (leap_cases (YearFromDay day)) as [Hl Hd].
  unfold DateFromTime, MonthFromTime, InLeapYear, DayWithinYear in *.
  unfold t in *. rewrite YearFromTime_midnight, Day_midnight in *.
  rewrite Hl. fold leap dwy in Hr |- *. clearbody dwy.
  assert (Hleap : leap = 0 ∨ leap = 1) by lia.
  replace (DaysInYear (YearFromDay day)) with (365 + leap) in Hr by lia.
  clearbody leap. clear Hl Hd t.
  destruct Hleap as [-> | ->]; cbn [Z.add Pos.add Pos.succ];
    repeat (match goal with
            | |- context [if ?b then _ else _] =>
                let E := fresh "E" in
                destruct b eqn:E;
                [apply Z.ltb_lt in E | apply Z.ltb_ge in E]
            end);
    simpl; lia.
Qed.

Lemma monthStart_mono leap a b :
  0 ≤ leap → 0 ≤ a ≤ b → b ≤ 11 → monthStart leap a ≤ monthStart leap b.
Proof.
  intros Hl Hab Hb.
  assert (a = 0 ∨ a = 1 ∨ a = 2 ∨ a = 3 ∨ a = 4 ∨ a = 5 ∨ a = 6 ∨ a = 7
          ∨ a = 8 ∨ a = 9 ∨ a = 10 ∨ a = 11) as Ha' by lia.
  assert (b = 0 ∨ b = 1 ∨ b = 2 ∨ b = 3 ∨ b = 4 ∨ b = 5 ∨ b = 6 ∨ b = 7
          ∨ b = 8 ∨ b = 9 ∨ b = 10 ∨ b = 11) as Hb' by lia.
  repeat (destruct Ha' as [->|Ha']); try subst a;
    repeat (destruct Hb' as [->|Hb']); try subst b; simpl; lia.
Qed.

(** A later day has a larger date number. *)
Lemma dateNumber_mono d1 d2 : d1 < d2 → dateNumber d1 < dateNumber d2.
Proof.
  intros Hlt.
  pose proof (date_fields d1) as (Hm1 & Hd1 & He1 & Hn1).
  pose proof (date_fields d2) as (Hm2 & Hd2 & He2 & Hn2).
  pose proof (YearFromDay_mono d1 d2 ltac:(lia)) as Hy.
  pose proof (leap_cases (YearFromDay d1)) as [_ Hl1].
  unfold dateNumber. cbv zeta. rewrite !YearFromTime_midnight.
  destruct (Z.eq_dec (YearFromDay d1) (YearFromDay d2)) as [Heq|Hne]; [|lia].
  rewrite <- Heq in *.
  set (leap := DaysInYear (YearFromDay d1) - 365) in *.
  set (m1 := MonthFromTime (d1 * msPerDay)) in *.
  set (m2 := MonthFromTime (d2 * msPerDay)) in *.
  destruct (Z_lt_le_dec m2 m1) as [Hgt|Hle].
  - pose proof (monthStart_mono leap (m2 + 1) m1 ltac:(lia) ltac:(lia)
                  ltac:(lia)).
    specialize (Hn2 ltac:(lia)). lia.
  - destruct (Z.eq_dec m1 m2) as [Hm|Hm]; [|lia].
    rewrite <- Hm in *. lia.
Qed.

Lemma dateNumber_compare d1 d2 : (dateNumber d1 ?= dateNumber d2) = (d1 ?= d2).
Proof.
  destruct (Z.compare_spec d1 d2) as [->|Hlt|Hgt].
  - apply Z.compare_refl.
  - apply Z.compare_lt_iff. by apply dateNumber_mono.
  - apply Z.compare_gt_iff. by apply dateNumber_mono.
Qed.

(** Dates of the years 0 to 9999, written [YYYY-MM-DD], compare as
    strings the way their days compare. *)
Lemma dateString_compare d1 d2 :
  0 ≤ YearFromDay d1 ≤ 9999 → 0 ≤ YearFromDay d2 ≤ 9999 →
  String.compare (dateString d1) (dateString d2) = (d1 ?= d2).
Proof.
  intros Hy1 Hy2. rewrite <- dateNumber_compare.
  pose proof (date_fields d1) as (Hm1 & Hd1 & _).
  pose proof (date_fields d2) as (Hm2 & Hd2 & _).
  unfold dateString, dateNumber, year_string. cbv zeta.
  rewrite !YearFromTime_midnight.
  rewrite !(proj2 (andb_true_iff _ _))
    by (split; apply Z.leb_le; lia).
  set (y1 := YearFromDay d1) in *. set (y2 := YearFromDay d2) in *.
  set (m1 := MonthFromTime (d1 * msPerDay)) in *.
  set (m2 := MonthFromTime (d2 * msPerDay)) in *.
  set (a1 := DateFromTime (d1 * msPerDay)) in *.
  set (a2 := DateFromTime (d2 * msPerDay)) in *.
  rewrite (pad_digits_compare 4) by (change (10 ^ Z.of_nat 4) with 10000; lia).
  destruct (Z.compare_spec y1 y2) as [Hy|Hy|Hy].
  2: { symmetry. apply Z.compare_lt_iff. lia. }
  2: { symmetry. apply Z.compare_gt_iff. lia. }
  cbn [String.compare]. change (Ascii.compare "-" "-") with Eq. cbv iota.
  rewrite (pad_digits_compare 2) by (change (10 ^ Z.of_nat 2) with 100; lia).
  destruct (Z.compare_spec (m1 + 1) (m2 + 1)) as [Hm|Hm|Hm].
  2: { symmetry. apply Z.compare_lt_iff. lia. }
  2: { symmetry. apply Z.compare_gt_iff. lia. }
  cbn [String.compare]. change (Ascii.compare "-" "-") with Eq. cbv iota.
  rewrite (pad_digits_compare 2) by (change (10 ^ Z.of_nat 2) with 100; lia).
  destruct (Z.compare_spec a1 a2) as [Ha|Ha|Ha].
  - symmetry. apply Z.compare_eq_iff. lia.
  - symmetry. apply Z.compare_lt_iff. lia.
  - symmetry. apply Z.compare_gt_iff. lia.
Qed.

Lemma dateString_le_iff d1 d2 :
  0 ≤ YearFromDay d1 ≤ 9999 → 0 ≤ YearFromDay d2 ≤ 9999 →
  String.le (dateString d1) (dateString d2) ↔ d1 ≤ d2.
Proof.
  intros Hy1 Hy2. unfold String.le, String.leb.
  rewrite dateString_compare by done.
  destruct (Z.compare_spec d1 d2); simpl; split; try done; lia.
Qed.

End KeyOrderFacts.

(** ** The [Map] of week buckets *)

Module JsMapFacts.

Lemma get_set {V} k k' (v : V) m :
  JsMap.get k' (JsMap.set k v m)
  = if decide (k' = k) then Some v else JsMap.get k' m.
Proof.
  induction m as [|[k0 v0] m IH]; simpl.
  - destruct (String.eqb_spec k' k); by case_decide.
  - destruct (String.eqb_spec k k0) as [->|Hne]; simpl.
    + destruct (String.eqb_spec k' k0); by case_decide.
    + destruct (String.eqb_spec k' k0) as [->|Hne'].
      * by rewrite decide_False by done.
      * apply IH.
Qed.

Lemma keys_set {V} k (v : V) m :
  JsMap.keys (JsMap.set k v m)
  = if JsMap.has k m then JsMap.keys m else JsMap.keys m ++ [k].
Proof.
  unfold JsMap.has. induction m as [|[k0 v0] m IH]; simpl; [done|].
  destruct (String.eqb_spec k k0) as [->|Hne]; simpl; [done|].
  rewrite IH. by destruct (JsMap.get k m).
Qed.

Lemma get_None_keys {V} k (m : JsMap.t V) :
  JsMap.get k m = None → k ∉ JsMap.keys m.
Proof.
  induction m as [|[k0 v0] m IH]; simpl.
  - intros _. apply not_elem_of_nil.
  - destruct (String.eqb_spec k k0) as [->|Hne]; [done|].
    intros H. apply not_elem_of_cons. auto.
Qed.

Lemma get_Some_keys {V} k (v : V) (m : JsMap.t V) :
  JsMap.get k m = Some v → k ∈ JsMap.keys m.
Proof.
  induction m as [|[k0 v0] m IH]; simpl; [done|].
  destruct (String.eqb_spec k k0) as [->|Hne].
  - intros _. apply elem_of_cons. by left.
  - intros H. apply elem_of_cons. right. auto.
Qed.

Lemma keys_get {V} k (m : JsMap.t V) :
  k ∈ JsMap.keys m → is_Some (JsMap.get k m).
Proof.
  destruct (JsMap.get k m) eqn:E; [eauto|].
  intros H. by apply get_None_keys in E.
Qed.

Lemma keys_set_NoDup {V} k (v : V) m :
  NoDup (JsMap.keys m) → NoDup (JsMap.keys (JsMap.set k v m)).
Proof.
  intros Hnd. rewrite keys_set. unfold JsMap.has.
  destruct (JsMap.get k m) eqn:E; [done|].
  apply NoDup_app. split_and!; [done| |apply NoDup_singleton].
  intros x Hx Hx'. apply list_elem_of_singleton in Hx' as ->.
  by apply get_None_keys in E.
Qed.

Lemma get_map {V W} (f : V → W) k (m : JsMap.t V) :
  JsMap.get k (List.map (prod_map id f) m) = f <$> JsMap.get k m.
Proof.
  induction m as [|[k0 v0] m IH]; simpl; [done|].
  by destruct (String.eqb k k0).
Qed.

Lemma keys_map {V W} (f : V → W) (m : JsMap.t V) :
  JsMap.keys (List.map (prod_map id f) m) = JsMap.keys m.
Proof.
  unfold JsMap.keys. induction m as [|[k0 v0] m IH]; simpl; [done|].
  by rewrite IH.
Qed.

End JsMapFacts.

(** ** Sorting of strings *)

Module SortFacts.

Lemma js_sort_sorted l : StronglySorted String.le (js_sort l).
Proof. apply StronglySorted_merge_sort; apply _. Qed.

Lemma js_sort_perm l : js_sort l ≡ₚ l.
Proof. apply merge_sort_Permutation. Qed.

Lemma js_sort_elem_of x l : x ∈ js_sort l ↔ x ∈ l.
Proof. by rewrite js_sort_perm. Qed.

Lemma js_sort_NoDup l : NoDup l → NoDup (js_sort l).
Proof. by rewrite js_sort_perm. Qed.

End SortFacts.

(** ** The error monad *)

Module IoFacts.

Lemma bind_Ok_inv {A B} (c : io A) (k : A → io B) b :
  c ≫= k = Ok b → ∃ a, c = Ok a ∧ k a = Ok b.
Proof. destruct c as [a|msg]; [eauto | discriminate]. Qed.

Lemma bind_Ok {A B} (c : io A) (k : A → io B) a :
  c = Ok a → c ≫= k = k a.
Proof. by intros ->. Qed.

End IoFacts.

(** ** The week bucketizer *)

Module BucketizerFacts.
Import EsDate Bucketizer JsMapFacts SortFacts IoFacts.

(** An invalid date makes [toISOString] throw, so a week key is only ever
    computed for a valid one. *)
Lemma getWeekKey_Ok_valid env (d : Date) k :
  getWeekKey env d = Ok k → is_Some d.
Proof. destruct d; [eauto | discriminate]. Qed.

Lemma addToWeek_get env m date m' :
  addToWeek env m date = Ok m' →
  validDate env date
  ∧ ∃ weekKey,
      getWeekKey env (new_Date_string env (split_head "." date)) = Ok weekKey
      ∧ ∀ k, JsMap.get k m'
             = if decide (k = weekKey)
               then Some (default [] (JsMap.get weekKey m) ++ [date])
               else JsMap.get k m.
Proof.
  unfold addToWeek. intros H.
  apply bind_Ok_inv in H as (weekKey & Hk & H). simplify_eq/=.
  split; [by eapply getWeekKey_Ok_valid|].
  exists weekKey. split; [done|]. intros k. rewrite get_set.
  case_decide as Hkk.
  - unfold JsMap.has. destruct (JsMap.get weekKey m) eqn:E; simpl.
    + by rewrite E.
    + by rewrite get_set, decide_True.
  - unfold JsMap.has. destruct (JsMap.get weekKey m) eqn:E; simpl; [done|].
    by rewrite get_set, decide_False.
Qed.

Lemma addToWeek_NoDup env m date m' :
  addToWeek env m date = Ok m' →
  NoDup (JsMap.keys m) → NoDup (JsMap.keys m').
Proof.
  unfold addToWeek. intros H Hnd.
  apply bind_Ok_inv in H as (weekKey & Hk & H). simplify_eq/=.
  apply keys_set_NoDup. destruct (negb _); [by apply keys_set_NoDup | done].
Qed.

Lemma addToWeek_within env dates m date m' :
  addToWeek env m date = Ok m' → date ∈ dates →
  buckets_within env dates m → buckets_within env dates m'.
Proof.
  intros H Hin Hinv k ds Hget.
  apply addToWeek_get in H as (Hvalid & weekKey & _ & Hlook).
  rewrite Hlook in Hget. case_decide; [|by eapply Hinv]. simplify_eq.
  apply Forall_app. split; [|by repeat constructor].
  destruct (JsMap.get weekKey m) eqn:E; simpl; [by eapply Hinv | constructor].
Qed.

Lemma groupDates_inv env dates rest m m' :
  groupDates env rest m = Ok m' → rest ⊆ dates →
  buckets_within env dates m → NoDup (JsMap.keys m) →
  buckets_within env dates m' ∧ NoDup (JsMap.keys m').
Proof.
  revert m. induction rest as [|date rest IH]; intros m H Hsub Hinv Hnd.
  - by simplify_eq/=.
  - simpl in H. apply bind_Ok_inv in H as (m1 & H1 & H).
    apply (IH m1); [done | | |].
    + intros d Hd. apply Hsub, elem_of_cons. by right.
    + eapply addToWeek_within; [done | | done].
      apply Hsub, elem_of_cons. by left.
    + by eapply addToWeek_NoDup.
Qed.

(** What [batchDatesByWeek] returns: distinct week keys; every bucket is
    sorted ascending and holds valid names taken from [dates]. *)
Lemma batchDatesByWeek_buckets env dates weekMap :
  batchDatesByWeek env dates = Ok weekMap →
  NoDup (JsMap.keys weekMap)
  ∧ buckets_within env dates weekMap
  ∧ ∀ k ds, JsMap.get k weekMap = Some ds → StronglySorted String.le ds.
Proof.
  unfold batchDatesByWeek. intros H.
  apply bind_Ok_inv in H as (m & Hm & H). simplify_eq/=.
  apply (groupDates_inv env dates) in Hm as [Hinv Hnd]; [|done| |constructor].
  2: { intros k ds Hget. discriminate. }
  split_and!.
  - by rewrite keys_map.
  - intros k ds Hget. rewrite get_map in Hget.
    destruct (JsMap.get k m) as [ds0|] eqn:E; simplify_eq/=.
    specialize (Hinv k ds0 E). rewrite Forall_forall in Hinv |- *.
    intros d Hd. apply Hinv. by apply js_sort_elem_of.
  - intros k ds Hget. rewrite get_map in Hget.
    destruct (JsMap.get k m) as [ds0|] eqn:E; simplify_eq/=.
    apply js_sort_sorted.
Qed.

End BucketizerFacts.

(** ** The sorted week keys are in chronological order *)

Module WeekOrderFacts.
Import EsDate Bucketizer WeekKeyFacts KeyOrderFacts.
Import JsMapFacts SortFacts IoFacts BucketizerFacts.

(** A week key is the [YYYY-MM-DD] form of a day. *)
Lemma getWeekKey_dateString env (d : Date) k :
  getWeekKey env d = Ok k → ∃ day, k = dateString day.
Proof.
  unfold getWeekKey. cbv zeta.
  destruct (onlyDay env _) as [s|]; [|discriminate].
  rewrite toISOString_date_part. intros [= <-].
  exists (Day s). unfold dateString. cbv zeta.
  by destruct (fields_of_Day s) as (-> & -> & ->).
Qed.

Lemma addToWeek_keys env m date m' :
  addToWeek env m date = Ok m' →
  Forall (λ k, ∃ day, k = dateString day) (JsMap.keys m) →
  Forall (λ k, ∃ day, k = dateString day) (JsMap.keys m').
Proof.
  unfold addToWeek. intros H Hall.
  apply bind_Ok_inv in H as (weekKey & Hk & H). simplify_eq/=.
  apply getWeekKey_dateString in Hk.
  assert (Hset : ∀ (v : list string) m0,
            Forall (λ k, ∃ day, k = dateString day) (JsMap.keys m0) →
            Forall (λ k, ∃ day, k = dateString day)
              (JsMap.keys (JsMap.set weekKey v m0))).
  { intros v m0 H0. rewrite keys_set. destruct (JsMap.has weekKey m0); [done|].
    apply Forall_app. split; [done|]. by repeat constructor. }
  apply Hset. destruct (negb _); [by apply Hset | done].
Qed.

Lemma groupDates_keys env rest m m' :
  groupDates env rest m = Ok m' →
  Forall (λ k, ∃ day, k = dateString day) (JsMap.keys m) →
  Forall (λ k, ∃ day, k = dateString day) (JsMap.keys m').
Proof.
  revert m. induction rest as [|date rest IH]; intros m H Hall.
  - by simplify_eq/=.
  - simpl in H. apply bind_Ok_inv in H as (m1 & H1 & H).
    apply (IH m1); [done|]. by eapply addToWeek_keys.
Qed.

Lemma Forall_image {A B} (f : A → B) (l : list B) :
  Forall (λ y, ∃ x, y = f x) l → ∃ xs, l = f <$> xs.
Proof.
  induction 1 as [|y l [x ->] _ [xs ->]].
  - by exists [].
  - by exists (x :: xs).
Qed.

Lemma dateString_sorted days :
  Forall (λ d, 0 ≤ YearFromDay d ≤ 9999) days →
  StronglySorted String.le (dateString <$> days) →
  StronglySorted Z.le days.
Proof.
  induction 1 as [|d days Hd Hall IH]; intros Hs; [constructor|].
  rewrite fmap_cons in Hs. apply StronglySorted_inv in Hs as [Hs Hle].
  constructor; [by apply IH|].
  rewrite Forall_fmap in Hle. rewrite Forall_forall in Hle, Hall |- *.
  intros d' Hd'. apply (dateString_le_iff d d'); [done | by apply Hall |].
  by apply Hle.
Qed.

(** The keys in the order in which [processPackage] visits them are the
    dates of days that, within the years 0 to 9999, never decrease. *)
Lemma week_keys_chronological env dates weekMap :
  batchDatesByWeek env dates = Ok weekMap →
  ∃ days, js_sort (JsMap.keys weekMap) = dateString <$> days
          ∧ (Forall (λ d, 0 ≤ YearFromDay d ≤ 9999) days →
             StronglySorted Z.le days).
Proof.
  unfold batchDatesByWeek. intros H.
  apply bind_Ok_inv in H as (m & Hm & H). simplify_eq/=.
  apply groupDates_keys in Hm; [|constructor].
  rewrite keys_map.
  assert (Hs : Forall (λ k, ∃ day, k = dateString day)
                 (js_sort (JsMap.keys m))).
  { rewrite Forall_forall in Hm |- *. intros k Hk.
    apply Hm. by apply js_sort_elem_of. }
  apply Forall_image in Hs as [days Hdays].
  exists days. split; [done|]. intros Hy.
  apply dateString_sorted; [done|]. rewrite <- Hdays. apply js_sort_sorted.
Qed.

End WeekOrderFacts.

(** ** The per-package loop *)

Module OrchestratorFacts.
Import Merge EsDate Bucketizer Fs Orchestrator.
Import JsMapFacts SortFacts IoFacts BucketizerFacts WeekOrderFacts.

(** [firstAvailable] picks the first date with data and nothing else. *)
Lemma firstAvailable_Some w pkg ds d nd :
  firstAvailable w pkg ds = Some (d, nd) ↔
  ∃ l1 l2, ds = l1 ++ d :: l2
           ∧ Forall (λ x, dataOn w pkg x = None) l1
           ∧ dataOn w pkg d = Some nd.
Proof.
  unfold firstAvailable. induction ds as [|x ds IH]; simpl.
  - split; [done|]. intros (l1 & l2 & H & _). by destruct l1.
  - destruct (dataOn w pkg x) as [nd'|] eqn:E; simpl.
    + split.
      * intros [= <- <-]. exists [], ds. by repeat split.
      * intros (l1 & l2 & H & Hall & Hd). destruct l1 as [|y l1];
          simplify_eq/=; try congruence.
        inversion Hall; congruence.
    + rewrite IH. split.
      * intros (l1 & l2 & -> & Hall & Hd). exists (x :: l1), l2.
        split_and!; [done | by constructor | done].
      * intros (l1 & l2 & H & Hall & Hd). destruct l1 as [|y l1];
          simplify_eq/=; try congruence.
        inversion Hall; subst. eauto.
Qed.





(** The inner loop reads the dates of a week up to the first one with
    data and no further: it computes the observation of the week as soon
    as every date whose predecessors in the week have no data can be
    read, whatever the seeds behind the chosen date are. *)
Lemma scanWeek_reached env w pkg ds st :
  Forall (validDate env) ds →
  (∀ l1 d l2, ds = l1 ++ d :: l2 →
     Forall (λ x, dataOn w pkg x = None) l1 →
     succeeded (readSeedData w d) = true) →
  scanWeek env w pkg ds st
  = Ok match weekObservation env w pkg ds with
       | Some o => (true, (updateHistoricalData o.2 o.1 st.1, S st.2))
       | None => (false, st)
       end.
Proof.
  unfold weekObservation, firstAvailable.
  induction 1 as [|d ds [t Ht] _ IH]; intros Hreach; simpl; [done|].
  pose proof (Hreach [] d ds eq_refl ltac:(constructor)) as Hread.
  unfold dataOn at 1.
  destruct (readSeedData w d) as [data|] eqn:E; [|done]. simpl.
  destruct (packageDownloads pkg data) as [nd|] eqn:Hnd; simpl.
  - unfold getTime. by rewrite Ht.
  - apply IH. intros l1 d' l2 -> Hnone.
    apply (Hreach (d :: l1) d' l2 eq_refl). constructor; [|done].
    unfold dataOn. by rewrite E.
Qed.

Lemma scanWeeks_reached env w pkg weekMap weekKeys st :
  Forall (λ k, Forall (validDate env) (default [] (JsMap.get k weekMap)))
    weekKeys →
  (∀ k l1 d l2, JsMap.get k weekMap = Some (l1 ++ d :: l2) →
     Forall (λ x, dataOn w pkg x = None) l1 →
     succeeded (readSeedData w d) = true) →
  let weeks := (λ k, default [] (JsMap.get k weekMap)) <$> weekKeys in
  let merged := omap (weekObservation env w pkg) weeks in
  scanWeeks env w pkg weekMap weekKeys st
  = Ok (mergeAll merged st.1, (st.2 + length merged)%nat).
Proof.
  intros H Hreach. revert st.
  induction H as [|k ks Hk _ IH]; intros st; simpl.
  - destruct st. simpl. by rewrite Nat.add_0_r.
  - rewrite (scanWeek_reached _ _ _ _ _ Hk).
    2: { intros l1 d l2 Hds. apply (Hreach k l1 d l2).
         destruct (JsMap.get k weekMap) as [ds|]; simpl in Hds.
         - by rewrite Hds.
         - by destruct l1. }
    simpl. destruct (weekObservation env w pkg _) as [o|]; simpl.
    + rewrite IH. simpl. by rewrite Nat.add_succ_r.
    + apply IH.
Qed.

(** C7.  [processPackage] visits the weeks in ascending order of their
    distinct keys, which is the chronological order of the days they name
    (for the years 0 to 9999, whose keys have four-digit years), the
    dates of a week stand in ascending order, and each week merges the
    observation of its first date that has data for the package, or
    nothing when no date of it has, and reads no seed behind that date:
    the series written back is the existing one with exactly these
    observations merged, one after the other, and [weeksAdded] counts
    them.  This holds when the seed folder and the existing series can be
    read and, in every week, each date whose predecessors in the week
    have no data for the package can be read; the seeds behind the chosen
    date of a week may be unreadable. *)
Theorem C7_first_available_day_per_week env w pkg dates existing weekMap :
  getSeedDates w = Ok (Some dates) →
  mkdirError w (dirname (dataPath pkg)) = None →
  readExistingData w (dataPath pkg) = Ok (Some existing) →
  batchDatesByWeek env dates = Ok weekMap →
  (∀ k l1 d l2, JsMap.get k weekMap = Some (l1 ++ d :: l2) →
     Forall (λ x, dataOn w pkg x = None) l1 →
     succeeded (readSeedData w d) = true) →
  writeError w (dataPath pkg) = None →
  let weekKeys := js_sort (JsMap.keys weekMap) in
  let weeks := (λ k, default [] (JsMap.get k weekMap)) <$> weekKeys in
  let merged := omap (weekObservation env w pkg) weeks in
  StronglySorted String.le weekKeys
  ∧ NoDup weekKeys
  ∧ weekKeys ≡ₚ JsMap.keys weekMap
  ∧ (∃ days, weekKeys = dateString <$> days
             ∧ (Forall (λ d, 0 ≤ YearFromDay d ≤ 9999) days →
                StronglySorted Z.le days))
  ∧ Forall (StronglySorted String.le) weeks
  ∧ processPackage env w pkg
    = Ok (with_data w (<[dataPath pkg := Ok (mergeAll merged existing)]>
                         (dataFiles w)),
          length merged).
Proof.
  intros Hdates Hmk Hex Hb Hreach Hwr weekKeys weeks merged.
  pose proof Hb as (Hnd & Hin & Hsorted)%batchDatesByWeek_buckets.
  assert (Hscan : scanWeeks env w pkg weekMap weekKeys (existing, 0%nat)
                  = Ok (mergeAll merged existing, length merged)).
  { apply (scanWeeks_reached env w pkg weekMap weekKeys (existing, 0%nat));
      [|exact Hreach].
    apply Forall_forall. intros k Hk.
    destruct (JsMap.get k weekMap) as [ds|] eqn:E; simpl; [|constructor].
    eapply Forall_impl; [by eapply Hin|]. by intros d [_ Hv]. }
  split_and!.
  - apply js_sort_sorted.
  - by apply js_sort_NoDup.
  - apply js_sort_perm.
  - by eapply week_keys_chronological.
  - subst weeks. apply Forall_fmap, Forall_forall. intros k Hk. simpl.
    destruct (JsMap.get k weekMap) as [ds|] eqn:E; simpl; [|constructor].
    by eapply Hsorted.
  - unfold processPackage. rewrite Hdates. simpl.
    unfold mkdir. rewrite Hmk. simpl. rewrite Hex. simpl.
    rewrite Hb. simpl. fold weekKeys. rewrite Hscan. simpl.
    unfold writeFile. rewrite Hwr. reflexivity.
Qed.

(** In the example the seed of 2024-01-10 cannot be parsed, and it stands
    behind the first date of its week with data, 2024-01-08. *)
Lemma brokenLater_reached k l1 d l2 :
  JsMap.get k MoreExamples.brokenLaterWeekMap = Some (l1 ++ d :: l2) →
  Forall (λ x, dataOn MoreExamples.brokenLaterWorld "react" x = None) l1 →
  succeeded (readSeedData MoreExamples.brokenLaterWorld d) = true.
Proof.
  unfold MoreExamples.brokenLaterWeekMap. cbn [JsMap.get].
  destruct (String.eqb k "2024-01-07").
  - intros [= Hl] Hnone.
    destruct l1 as [|a [|b l1]]; simplify_eq/=; [reflexivity..|].
    exfalso. inversion_clear Hnone as [|? ? _ Hrest].
    inversion_clear Hrest as [|? ? Hb _]. vm_compute in Hb. discriminate.
  - destruct (String.eqb k "2024-01-14"); [|discriminate].
    intros [= Hl] _. destruct l1 as [|a l1]; simplify_eq/=; [reflexivity|].
    by destruct l1.
Qed.

Lemma C7_first_available_day_per_week_witness :
  getSeedDates MoreExamples.brokenLaterWorld
  = Ok (Some MoreExamples.brokenLaterDates)
  ∧ batchDatesByWeek Examples.utc MoreExamples.brokenLaterDates
    = Ok MoreExamples.brokenLaterWeekMap
  ∧ dataOn MoreExamples.brokenLaterWorld "react" "2024-01-07.json" = None
  ∧ dataOn MoreExamples.brokenLaterWorld "react" "2024-01-08.json"
    = Some {[ "18.2.0" := 5 ]}
  ∧ dataOn MoreExamples.brokenLaterWorld "react" "2024-01-09.json"
    = Some {[ "18.2.0" := 9 ]}
  ∧ readSeedData MoreExamples.brokenLaterWorld "2024-01-10.json"
    = Throw "Unexpected token"
  ∧ processPackage Examples.utc MoreExamples.brokenLaterWorld "react"
    = Ok (with_data MoreExamples.brokenLaterWorld
            {[ dataPath "react" :=
                 Ok (mkHistoricalData "react" [1704672000000; 1705795200000]
                       {[ "18.2.0" := [5; 4] ]}) ]},
          1%nat).
Proof.
  assert (Hd : getSeedDates MoreExamples.brokenLaterWorld
               = Ok (Some MoreExamples.brokenLaterDates))
    by (vm_compute; reflexivity).
  assert (Hb : batchDatesByWeek Examples.utc MoreExamples.brokenLaterDates
               = Ok MoreExamples.brokenLaterWeekMap)
    by (vm_compute; reflexivity).
  split; [exact Hd|]. split; [exact Hb|].
  split; [vm_compute; reflexivity|]. split; [vm_compute; reflexivity|].
  split; [vm_compute; reflexivity|]. split; [reflexivity|].
  destruct (C7_first_available_day_per_week Examples.utc
              MoreExamples.brokenLaterWorld "react"
              MoreExamples.brokenLaterDates Examples.series
              MoreExamples.brokenLaterWeekMap
              Hd eq_refl eq_refl Hb brokenLater_reached eq_refl)
    as (_ & _ & _ & _ & _ & ->).
  vm_compute. reflexivity.
Defined.

End OrchestratorFacts.

(** ** The batch runner *)

Module BatchFacts.
Import Merge EsDate Bucketizer Fs Orchestrator Batch IoFacts.

Lemma with_data_id w : with_data w (dataFiles w) = w.
Proof. by destruct w. Qed.

Lemma scanWeek_with_data env w df pkg ds st :
  scanWeek env (with_data w df) pkg ds st = scanWeek env w pkg ds st.
Proof.
  induction ds as [|d ds IH]; simpl; [done|].
  change (readSeedData (with_data w df) d) with (readSeedData w d).
  destruct (readSeedData w d) as [data|]; simpl; [|done].
  by destruct (packageDownloads pkg data).
Qed.

Lemma scanWeeks_with_data env w df pkg weekMap weekKeys st :
  scanWeeks env (with_data w df) pkg weekMap weekKeys st
  = scanWeeks env w pkg weekMap weekKeys st.
Proof.
  revert st. induction weekKeys as [|k ks IH]; intros st; simpl; [done|].
  rewrite scanWeek_with_data.
  destruct (scanWeek env w pkg _ st) as [r|]; simpl; [apply IH | done].
Qed.

(** A run of [processPackage] reads, of the files under [data], only the
    one of its package, and writes only that one. *)
Lemma processPackage_with_data env w df p :
  df !! dataPath p = dataFiles w !! dataPath p →
  match processPackage env w p with
  | Ok (w', n) =>
      ∃ d, w' = with_data w (<[dataPath p := Ok d]> (dataFiles w))
           ∧ processPackage env (with_data w df) p
             = Ok (with_data w (<[dataPath p := Ok d]> df), n)
  | Throw msg => processPackage env (with_data w df) p = Throw msg
  end.
Proof.
  intros Hdf. unfold processPackage.
  change (getSeedDates (with_data w df)) with (getSeedDates w).
  destruct (getSeedDates w) as [[dates|]|]; simpl; [|done..].
  change (mkdir (with_data w df) (dirname (dataPath p)))
    with (mkdir w (dirname (dataPath p))).
  destruct (mkdir w (dirname (dataPath p))) as [[]|]; simpl; [|done].
  unfold readExistingData. simpl. rewrite Hdf.
  destruct (dataFiles w !! dataPath p) as [[existing|]|]; simpl; [|done..].
  destruct (batchDatesByWeek env dates) as [weekMap|]; simpl; [|done].
  rewrite scanWeeks_with_data.
  destruct (scanWeeks env w p weekMap _ _) as [[d n]|]; simpl; [|done].
  unfold writeFile. simpl.
  destruct (writeError w (dataPath p)); simpl; [done|].
  exists d. by destruct w.
Qed.

Lemma length_filter_fmap {A B} (f : A → B) (P : B → Prop)
    `{∀ x, Decision (P x)} (l : list A) :
  length (filter P (f <$> l)) = length (filter (λ x, P (f x)) l).
Proof.
  induction l as [|x l IH]; [done|].
  rewrite fmap_cons, !filter_cons.
  destruct (decide (P (f x))); simpl; by rewrite IH.
Qed.

Lemma PACKAGES_paths_NoDup : NoDup (dataPath <$> PACKAGES).
Proof. by apply (bool_decide_unpack _). Qed.

(** The batch over any list of packages with distinct files, started from
    a world that agrees with [w] on their files. *)
Lemma allSettled_isolated env w ps df :
  NoDup (dataPath <$> ps) →
  (∀ p, p ∈ ps → df !! dataPath p = dataFiles w !! dataPath p) →
  ∃ df',
    allSettled env (with_data w df) ps
    = (with_data w df', (λ p, Fulfilled (packageOutcome env w p)) <$> ps)
    ∧ (∀ p, p ∈ ps → df' !! dataPath p = packageFile env w p)
    ∧ (∀ path, path ∉ dataPath <$> ps → df' !! path = df !! path).
Proof.
  revert df. induction ps as [|p ps IH]; intros df Hnd Hdf; simpl.
  { exists df. split_and!; [done | | done].
    intros p Hp. by apply elem_of_nil in Hp. }
  rewrite fmap_cons in Hnd. apply NoDup_cons in Hnd as [Hp Hnd].
  assert (Hrest : ∀ q, q ∈ ps → dataPath q ≠ dataPath p).
  { intros q Hq Heq. apply Hp. rewrite <- Heq. by apply list_elem_of_fmap_2. }
  pose proof (processPackage_with_data env w df p) as Hrun.
  specialize (Hrun (Hdf p ltac:(by left))).
  unfold runPackage, worldAfter, packageOutcome, packageFile in *.
  destruct (processPackage env w p) as [[w' n]|msg] eqn:E.
  - destruct Hrun as (d & -> & ->). simpl.
    destruct (IH (<[dataPath p := Ok d]> df) Hnd) as (df' & -> & Hin & Hout).
    { intros q Hq. rewrite lookup_insert_ne.
      - apply Hdf. by right.
      - intros Heq. by apply (Hrest q Hq). }
    exists df'. split_and!; [done | |].
    + intros q [->|Hq]%elem_of_cons; [|by apply Hin].
      rewrite Hout, E by done. simpl. by rewrite !lookup_insert_eq.
    + intros path Hpath. apply not_elem_of_cons in Hpath as [Hne Hpath].
      rewrite Hout by done. by rewrite lookup_insert_ne.
  - rewrite Hrun. simpl.
    destruct (IH df Hnd) as (df' & -> & Hin & Hout).
    { intros q Hq. apply Hdf. by right. }
    exists df'. split_and!; [done | |].
    + intros q [->|Hq]%elem_of_cons; [|by apply Hin].
      rewrite Hout, E by done. apply Hdf. by left.
    + intros path Hpath. apply not_elem_of_cons in Hpath as [Hne Hpath].
      by apply Hout.
Qed.

Lemma packageOutcome_success env w p :
  res_success (packageOutcome env w p) = succeeded (processPackage env w p).
Proof. unfold packageOutcome. by destruct (processPackage env w p). Qed.

Lemma count_failed {A} (ok : A → bool) (l : list A) :
  Z.of_nat (length l) - Z.of_nat (length (filter (λ x, ok x = true) l))
  = Z.of_nat (length (filter (λ x, ok x = false) l)).
Proof.
  induction l as [|x l IH]; [done|]. rewrite !filter_cons.
  destruct (ok x); simpl in *; lia.
Qed.

(** C9.  Every package of the list gets a fulfilled entry, which records
    the success or the error message of its own run as if it had run
    alone on the initial world: no entry is rejected, and a failure
    neither stops nor changes the run of another package.  The summary
    counts the packages that succeeded, [failed] is the total minus
    that, and it is the number of packages that failed.  Afterwards the
    file of every package is the one its own run leaves. *)
Theorem C9_failures_are_isolated env w :
  let w' := (main env w).1 in
  let summary := (main env w).2 in
  results summary = (λ p, Fulfilled (packageOutcome env w p)) <$> PACKAGES
  ∧ successful summary
    = length (filter (λ p, succeeded (processPackage env w p) = true) PACKAGES)
  ∧ failed summary
    = Z.of_nat (length PACKAGES) - Z.of_nat (successful summary)
  ∧ failed summary
    = Z.of_nat (length (filter (λ p, succeeded (processPackage env w p) = false)
                          PACKAGES))
  ∧ ∀ p, p ∈ PACKAGES → dataFiles w' !! dataPath p = packageFile env w p.
Proof.
  intros w' summary. subst w' summary. unfold main.
  destruct (allSettled_isolated env w PACKAGES (dataFiles w)
              PACKAGES_paths_NoDup ltac:(done)) as (df' & Hall & Hin & _).
  rewrite with_data_id in Hall. rewrite Hall.
  cbn [fst snd results successful failed].
  assert (Hcount : length (filter (λ r, isSuccess r = true)
             ((λ p, Fulfilled (packageOutcome env w p)) <$> PACKAGES))
           = length (filter (λ p, succeeded (processPackage env w p) = true)
                       PACKAGES)).
  { rewrite length_filter_fmap. simpl. f_equal. apply list_filter_iff.
    intros p. by rewrite packageOutcome_success. }
  split_and!; [done | done | done | | done].
  rewrite Hcount. apply count_failed.
Qed.

End BatchFacts.


(** * Further properties of the code *)

(** ** A merge call, beyond the claims *)

Module MergeMore.
Import JsArray JsArrayFacts Merge MergeFacts.

Lemma splice_insert_perm {A} start (x : A) l :
  splice_insert start x l ≡ₚ x :: l.
Proof.
  unfold splice_insert.
  etrans; [symmetry; apply Permutation_middle|]. by rewrite take_drop.
Qed.

(** X1.  After any call the timestamp is in the series, and the call
    either changes no timestamp or adds exactly that one: the new
    sequence is a rearrangement of the old one plus the timestamp. *)
Theorem X1_merge_records_the_timestamp nd ts s :
  let s' := updateHistoricalData nd ts s in
  ts ∈ timestamps s'
  ∧ (timestamps s' = timestamps s ∨ timestamps s' ≡ₚ ts :: timestamps s).
Proof.
  intros s'. subst s'.
  destruct (already_present ts (timestamps s)) eqn:Hp.
  - rewrite update_noop by done. split; [|by left].
    unfold already_present in Hp. apply andb_true_iff in Hp as [_ Hp].
    apply bool_decide_eq_true in Hp. by eapply list_elem_of_lookup_2.
  - rewrite update_insert by done. simpl.
    pose proof (splice_insert_perm
                  (findIndex (λ value, ts <=? value) (timestamps s)) ts
                  (timestamps s)) as Hperm.
    split; [|by right]. rewrite Hperm. by left.
Qed.

(** X2.  A strictly increasing sequence of timestamps stays strictly
    increasing when the series is empty or some existing timestamp is at
    least the incoming one. *)
Theorem X2_merge_keeps_sorted_when_position_found nd ts s :
  strictly_increasing (timestamps s) →
  timestamps s = [] ∨ Exists (λ y, ts ≤ y) (timestamps s) →
  strictly_increasing (timestamps (updateHistoricalData nd ts s)).
Proof.
  intros Hs [Hnil | Hex].
  - rewrite update_timestamps_empty by done. repeat constructor.
  - by apply update_sorted_found.
Qed.

Lemma X2_merge_keeps_sorted_when_position_found_witness :
  strictly_increasing (timestamps MoreExamples.twoVersions)
  ∧ Exists (λ y, 20 ≤ y) (timestamps MoreExamples.twoVersions)
  ∧ strictly_increasing
      (timestamps (updateHistoricalData {[ "b" := 5 ]} 20
                     MoreExamples.twoVersions)).
Proof.
  assert (H1 : strictly_increasing (timestamps MoreExamples.twoVersions))
    by (by apply (bool_decide_unpack _)).
  assert (H2 : Exists (λ y, 20 ≤ y) (timestamps MoreExamples.twoVersions))
    by (apply Exists_cons_tl, Exists_cons_hd; lia).
  split; [exact H1|]. split; [exact H2|].
  exact (X2_merge_keeps_sorted_when_position_found {[ "b" := 5 ]} 20
           MoreExamples.twoVersions H1 (or_intror H2)).
Defined.

Lemma insertPosition_spec ts (l : list Z) :
  Forall (λ y, y < ts) (take (insertPosition ts l) l)
  ∧ match l !! insertPosition ts l with
    | Some x => ts ≤ x
    | None => insertPosition ts l = length l
    end.
Proof.
  induction l as [|x l [IH1 IH2]]; simpl.
  - split; [constructor | done].
  - destruct (Z.leb_spec ts x); simpl.
    + split; [constructor | done].
    + split; [by constructor|].
      destruct (l !! insertPosition ts l); [done | by f_equal].
Qed.

(** X3.  When some existing timestamp is at least the incoming one and
    the call is not a no-op, the timestamp is inserted at the first index
    whose value is at least it: every timestamp in front of it is
    smaller, the one behind it is larger, and nothing else moves. *)
Theorem X3_merge_inserts_at_first_greater_or_equal nd ts s :
  Exists (λ y, ts ≤ y) (timestamps s) →
  already_present ts (timestamps s) = false →
  ∃ pos x,
    timestamps (updateHistoricalData nd ts s)
    = take pos (timestamps s) ++ ts :: drop pos (timestamps s)
    ∧ Forall (λ y, y < ts) (take pos (timestamps s))
    ∧ timestamps s !! pos = Some x
    ∧ ts < x.
Proof.
  intros Hex Hp.
  pose proof (insertPosition_spec ts (timestamps s)) as [Hb Hat].
  pose proof (findIndex_insertPosition ts (timestamps s) Hex) as Hf.
  exists (insertPosition ts (timestamps s)).
  destruct (timestamps s !! insertPosition ts (timestamps s)) as [x|] eqn:Hx.
  - exists x. split_and!; [by apply update_timestamps_found | done | done |].
    assert (x ≠ ts); [|lia]. intros ->.
    unfold already_present in Hp. rewrite Hf, Nat2Z.id, Hx in Hp.
    rewrite bool_decide_eq_true_2, andb_true_r in Hp by done.
    apply Z.leb_gt in Hp. lia.
  - exfalso. apply Exists_exists in Hex as (y & Hy & Hle).
    rewrite Hat, take_ge in Hb by done.
    rewrite Forall_forall in Hb. specialize (Hb _ Hy). simpl in Hb. lia.
Qed.

Lemma X3_merge_inserts_at_first_greater_or_equal_witness :
  Exists (λ y, 20 ≤ y) (timestamps MoreExamples.twoVersions)
  ∧ already_present 20 (timestamps MoreExamples.twoVersions) = false
  ∧ ∃ pos x,
      timestamps (updateHistoricalData ∅ 20 MoreExamples.twoVersions)
      = take pos [10; 30] ++ 20 :: drop pos [10; 30]
      ∧ Forall (λ y, y < 20) (take pos [10; 30])
      ∧ [10; 30] !! pos = Some x
      ∧ 20 < x.
Proof.
  assert (H2 : Exists (λ y, 20 ≤ y) (timestamps MoreExamples.twoVersions))
    by (apply Exists_cons_tl, Exists_cons_hd; lia).
  split; [exact H2|]. split; [reflexivity|].
  exact (X3_merge_inserts_at_first_greater_or_equal ∅ 20
           MoreExamples.twoVersions H2 eq_refl).
Defined.

(** X4.  When the series is not empty and every existing timestamp is
    smaller than the incoming one, the timestamp is not appended: it
    lands in front of the last timestamp, which stays last. *)
Theorem X4_merge_newer_timestamp_lands_before_last nd ts s l y :
  timestamps s = l ++ [y] →
  Forall (λ x, x < ts) (timestamps s) →
  timestamps (updateHistoricalData nd ts s) = l ++ [ts; y].
Proof.
  intros Hl Hall. rewrite Hl in Hall.
  by apply update_timestamps_all_smaller.
Qed.

Lemma X4_merge_newer_timestamp_lands_before_last_witness :
  timestamps MoreExamples.twoVersions = [10] ++ [30]
  ∧ Forall (λ x, x < 40) (timestamps MoreExamples.twoVersions)
  ∧ timestamps (updateHistoricalData ∅ 40 MoreExamples.twoVersions)
    = [10] ++ [40; 30].
Proof.
  assert (H : Forall (λ x, x < 40) (timestamps MoreExamples.twoVersions))
    by (repeat constructor).
  split; [reflexivity|]. split; [exact H|].
  exact (X4_merge_newer_timestamp_lands_before_last ∅ 40
           MoreExamples.twoVersions [10] 30 eq_refl H).
Defined.

(** X5.  A series that is index aligned stays index aligned when no
    observed count is zero. *)
Theorem X5_merge_keeps_alignment_without_zero_counts nd ts s :
  map_Forall (λ _ c, c ≠ 0) nd → aligned s →
  aligned (updateHistoricalData nd ts s).
Proof. apply update_aligned_nonzero. Qed.

Lemma X5_merge_keeps_alignment_without_zero_counts_witness :
  map_Forall (λ _ c, c ≠ 0) ({[ "b" := 5; "c" := 2 ]} : gmap string Z)
  ∧ aligned MoreExamples.twoVersions
  ∧ aligned (updateHistoricalData {[ "b" := 5; "c" := 2 ]} 20
               MoreExamples.twoVersions).
Proof.
  assert (H1 : map_Forall (λ _ c, c ≠ 0)
                 ({[ "b" := 5; "c" := 2 ]} : gmap string Z))
    by (by apply (bool_decide_unpack _)).
  assert (H2 : aligned MoreExamples.twoVersions)
    by (by apply (bool_decide_unpack _)).
  split; [exact H1|]. split; [exact H2|].
  exact (X5_merge_keeps_alignment_without_zero_counts _ 20 _ H1 H2).
Defined.

(** X6.  The versions tracked after a call: unchanged by a call that
    finds its timestamp present, and otherwise the versions tracked
    before together with the versions of the observation, no other. *)
Theorem X6_merge_tracks_old_and_observed_versions nd ts s :
  dom (downloads (updateHistoricalData nd ts s))
  = if already_present ts (timestamps s) then dom (downloads s)
    else dom (downloads s) ∪ dom nd.
Proof.
  destruct (already_present ts (timestamps s)) eqn:Hp.
  { by rewrite update_noop. }
  apply set_eq. intros v.
  rewrite elem_of_union, !elem_of_dom, update_downloads_lookup by done.
  destruct (downloads s !! v) as [arr|], (nd !! v) as [c|]; simpl;
    try destruct (c =? 0); split; intros H; eauto;
    destruct H as [[? ?]|[? ?]]; done.
Qed.

(** X7.  Every array after a call that inserts, version by version: a
    tracked version gets one entry, its count or a [0] when the
    observation omits it, and two entries when its count is [0]; a
    version seen for the first time gets zeros only, one for every
    timestamp, and one more when its count is [0]; no other version
    appears. *)
Theorem X7_merge_arrays_after_insert nd ts s v :
  already_present ts (timestamps s) = false →
  let i := findIndex (λ value, ts <=? value) (timestamps s) in
  downloads (updateHistoricalData nd ts s) !! v =
    match downloads s !! v, nd !! v with
    | Some arr, None => Some (splice_insert i 0 arr)
    | Some arr, Some c =>
        if c =? 0 then Some (splice_insert i 0 (splice_insert i 0 arr))
        else Some (splice_insert i c arr)
    | None, Some c =>
        if c =? 0 then Some (replicate (S (S (length (timestamps s)))) 0)
        else Some (replicate (S (length (timestamps s))) 0)
    | None, None => None
    end.
Proof.
  intros Hp i. rewrite update_downloads_lookup by done. fold i.
  destruct (downloads s !! v) as [arr|], (nd !! v) as [c|]; try done.
  - destruct (Z.eqb_spec c 0) as [->|]; done.
  - cbv zeta. destruct (c =? 0); [|done]. f_equal.
    unfold new_Array_fill, splice_insert.
    rewrite take_replicate, drop_replicate, length_replicate.
    change (0 :: replicate ?n 0) with (replicate (S n) 0).
    pose proof (splice_start_le i (S (length (timestamps s)))).
    change (0 :: replicate (S (length (timestamps s))
                     - splice_start i (S (length (timestamps s)))) 0)
      with (replicate (S (S (length (timestamps s))
                         - splice_start i (S (length (timestamps s))))) 0).
    rewrite <- replicate_add. f_equal. lia.
Qed.

Lemma X7_merge_arrays_after_insert_witness :
  already_present 20 (timestamps MoreExamples.twoVersions) = false
  ∧ downloads (updateHistoricalData {[ "b" := 0; "c" := 2 ]} 20
                 MoreExamples.twoVersions) !! "a" = Some [1; 0; 3]
  ∧ downloads (updateHistoricalData {[ "b" := 0; "c" := 2 ]} 20
                 MoreExamples.twoVersions) !! "b" = Some [4; 0; 0; 6]
  ∧ downloads (updateHistoricalData {[ "b" := 0; "c" := 2 ]} 20
                 MoreExamples.twoVersions) !! "c" = Some [0; 0; 0].
Proof.
  split; [reflexivity|]. split_and!.
  - exact (X7_merge_arrays_after_insert {[ "b" := 0; "c" := 2 ]} 20
             MoreExamples.twoVersions "a" eq_refl).
  - exact (X7_merge_arrays_after_insert {[ "b" := 0; "c" := 2 ]} 20
             MoreExamples.twoVersions "b" eq_refl).
  - exact (X7_merge_arrays_after_insert {[ "b" := 0; "c" := 2 ]} 20
             MoreExamples.twoVersions "c" eq_refl).
Defined.

End MergeMore.


(** ** The week key in any time zone *)

Module WeekKeyMore.
Import EsDate Bucketizer CalendarFacts WeekKeyFacts KeyOrderFacts IoFacts.

(** [onlyDay] of a valid date is the local midnight that begins its local
    day. *)
Lemma onlyDay_local_midnight env t :
  ¬ (0 ≤ YearFromDay (Day (t + LocalTZA env)) ≤ 99) →
  Z.abs (Day (t + LocalTZA env) * msPerDay - LocalTZA env)
    ≤ 8640000000000000 →
  onlyDay env (Some t)
  = Some (Day (t + LocalTZA env) * msPerDay - LocalTZA env).
Proof.
  intros Hyear Hrange.
  unfold onlyDay, new_Date_fields, getFullYear, getMonth, getDate,
    LocalTime, UTC.
  cbn [fmap option_fmap option_map mbind option_bind].
  set (l := t + LocalTZA env) in *.
  assert (Hfull : MakeFullYear (YearFromTime l) = YearFromTime l).
  { unfold MakeFullYear, YearFromTime.
    destruct (0 <=? YearFromDay (Day l)) eqn:E1;
      destruct (YearFromDay (Day l) <=? 99) eqn:E2; try done.
    exfalso. apply Hyear. split; [by apply Z.leb_le | by apply Z.leb_le]. }
  rewrite Hfull.
  pose proof (MakeDay_fields l 0) as Hmk. rewrite !Z.add_0_r in Hmk.
  rewrite Hmk. unfold MakeDate, MakeTime.
  match goal with
  | |- TimeClip ?x = _ =>
      replace x with (Day l * msPerDay - LocalTZA env) by lia
  end.
  by apply TimeClip_in_range.
Qed.

(** X8.  [onlyDay] truncates a valid date to the midnight of its day in
    the local time zone, not in UTC: the result is the instant at which
    the local day of the date begins, and an invalid date stays invalid.
    (Years 0 to 99, which the [Date] constructor reads as 19xx, and
    instants at the very end of the time range are set aside.) *)
Theorem X8_onlyDay_truncates_to_local_midnight env t :
  ¬ (0 ≤ YearFromDay (Day (t + LocalTZA env)) ≤ 99) →
  Z.abs (Day (t + LocalTZA env) * msPerDay - LocalTZA env)
    ≤ 8640000000000000 →
  ∃ r, onlyDay env (Some t) = Some r
       ∧ TimeWithinDay (LocalTime env r) = 0
       ∧ Day (LocalTime env r) = Day (LocalTime env t)
       ∧ onlyDay env None = None.
Proof.
  intros Hyear Hrange. eexists. split; [by apply onlyDay_local_midnight|].
  unfold LocalTime, TimeWithinDay.
  replace (Day (t + LocalTZA env) * msPerDay - LocalTZA env + LocalTZA env)
    with (Day (t + LocalTZA env) * msPerDay) by lia.
  split_and!; [by rewrite Z.mod_mul | apply Day_midnight | done].
Qed.

Lemma X8_onlyDay_truncates_to_local_midnight_witness :
  ¬ (0 ≤ YearFromDay (Day (1704672000000 + LocalTZA MoreExamples.new_york))
     ≤ 99)
  ∧ ∃ r, onlyDay MoreExamples.new_york (Some 1704672000000) = Some r
         ∧ TimeWithinDay (LocalTime MoreExamples.new_york r) = 0
         ∧ Day (LocalTime MoreExamples.new_york r)
           = Day (LocalTime MoreExamples.new_york 1704672000000)
         ∧ onlyDay MoreExamples.new_york None = None.
Proof.
  assert (H1 : ¬ (0 ≤ YearFromDay
                        (Day (1704672000000 + LocalTZA MoreExamples.new_york))
                  ≤ 99)) by (vm_compute; intros [_ H]; by apply H).
  split; [exact H1|].
  apply (X8_onlyDay_truncates_to_local_midnight MoreExamples.new_york
           1704672000000 H1).
  vm_compute. discriminate.
Defined.

(** The week key of a valid date in a zone of any offset. *)
Lemma getWeekKey_any_zone env t :
  let s := t - WeekDay t * msPerDay in
  let r := Day (s + LocalTZA env) * msPerDay - LocalTZA env in
  Z.abs s ≤ 8640000000000000 →
  Z.abs r ≤ 8640000000000000 →
  ¬ (0 ≤ YearFromDay (Day (s + LocalTZA env)) ≤ 99) →
  getWeekKey env (Some t) = Ok (dateString (Day r)).
Proof.
  intros s r Hs Hr Hyear. unfold getWeekKey. cbv zeta.
  rewrite setUTCDate_back. fold s. rewrite TimeClip_in_range by done.
  rewrite onlyDay_local_midnight by done. fold r.
  rewrite toISOString_date_part. unfold dateString. cbv zeta.
  by destruct (fields_of_Day r) as (-> & -> & ->).
Qed.

(** X9.  In a process whose local time is UTC the week key of a date is
    the date of the UTC Sunday that begins its week: a Sunday, at most
    six days before the date. *)
Theorem X9_week_key_in_utc_is_the_utc_sunday env t :
  LocalTZA env = 0 →
  Z.abs (t - WeekDay t * msPerDay) ≤ 8640000000000000 →
  ¬ (0 ≤ YearFromDay (utcSunday t) ≤ 99) →
  getWeekKey env (Some t) = Ok (dateString (utcSunday t))
  ∧ WeekDay (utcSunday t * msPerDay) = 0
  ∧ utcSunday t ≤ Day t < utcSunday t + 7.
Proof.
  intros Htz Hrange Hyear. split; [by apply getWeekKey_utc|].
  apply utcSunday_spec.
Qed.

Lemma X9_week_key_in_utc_is_the_utc_sunday_witness :
  LocalTZA Examples.utc = 0
  ∧ getWeekKey Examples.utc (Some 1704672000000) = Ok "2024-01-07"
  ∧ WeekDay (utcSunday 1704672000000 * msPerDay) = 0
  ∧ utcSunday 1704672000000 ≤ Day 1704672000000
    < utcSunday 1704672000000 + 7.
Proof.
  split; [reflexivity|].
  refine (X9_week_key_in_utc_is_the_utc_sunday Examples.utc 1704672000000
            eq_refl _ _).
  - vm_compute. discriminate.
  - vm_compute. intros [_ H]. by apply H.
Defined.

(** X10.  In a zone whose offset from UTC is not zero and less than a
    day, east or west, the week key of a date at midnight UTC is the
    date of the Saturday before the UTC Sunday of its week. *)
Theorem X10_week_key_off_utc_is_the_saturday env t :
  LocalTZA env ≠ 0 → Z.abs (LocalTZA env) < msPerDay →
  TimeWithinDay t = 0 →
  Z.abs t ≤ 8640000000000000 - 8 * msPerDay →
  ¬ (0 ≤ YearFromDay (utcSunday t) ≤ 99) →
  ¬ (0 ≤ YearFromDay (utcSunday t - 1) ≤ 99) →
  getWeekKey env (Some t) = Ok (dateString (utcSunday t - 1))
  ∧ WeekDay ((utcSunday t - 1) * msPerDay) = 6.
Proof.
  intros Hne Hlt Hmid Hrange Hy1 Hy2.
  pose proof (utcSunday_spec t) as [Hsun Hweek].
  pose proof (MakeDate_Day t) as Ht. unfold MakeDate in Ht.
  rewrite Hmid, Z.add_0_r in Ht.
  set (tz := LocalTZA env) in *.
  set (s := t - WeekDay t * msPerDay).
  assert (Hs : s = utcSunday t * msPerDay).
  { unfold s, utcSunday. lia. }
  assert (Hwd : 0 ≤ WeekDay t < 7) by (apply Z.mod_pos_bound; lia).
  assert (Hlocal : Day (s + tz) = utcSunday t ∧ 0 < tz
                   ∨ Day (s + tz) = utcSunday t - 1 ∧ tz < 0).
  { unfold Day, msPerDay in *. rewrite Hs.
    destruct (Z_lt_le_dec 0 tz).
    - left. split; [|done].
      rewrite Z.add_comm, Z.div_add by done. rewrite Z.div_small; lia.
    - right. split; [|lia].
      replace (utcSunday t * 86400000 + tz)
        with (tz + 86400000 + (utcSunday t - 1) * 86400000) by lia.
      rewrite Z.div_add by done. rewrite Z.div_small; lia. }
  assert (Hr : Day (Day (s + tz) * msPerDay - tz) = utcSunday t - 1).
  { unfold Day at 1. unfold msPerDay in *.
    destruct Hlocal as [[-> ?] | [-> ?]].
    - replace (utcSunday t * 86400000 - tz)
        with (86400000 - tz + (utcSunday t - 1) * 86400000) by lia.
      rewrite Z.div_add by done. rewrite Z.div_small; lia.
    - replace ((utcSunday t - 1) * 86400000 - tz)
        with (- tz + (utcSunday t - 1) * 86400000) by lia.
      rewrite Z.div_add by done. rewrite Z.div_small; lia. }
  split.
  - rewrite <- Hr. apply getWeekKey_any_zone; fold s; fold tz.
    + unfold s, msPerDay in *. lia.
    + unfold msPerDay in *.
      destruct Hlocal as [[-> ?] | [-> ?]]; unfold utcSunday in *; lia.
    + by destruct Hlocal as [[-> ?] | [-> ?]].
  - unfold WeekDay in *. rewrite Day_midnight in *.
    replace (utcSunday t - 1 + 4) with (utcSunday t + 4 + (-1) * 1) by lia.
    pose proof (Z.div_mod (utcSunday t + 4) 7 ltac:(done)) as Hdm.
    rewrite Hsun in Hdm.
    replace (utcSunday t + 4 + -1 * 1)
      with (6 + ((utcSunday t + 4) / 7 - 1) * 7) by lia.
    by rewrite Z.mod_add.
Qed.

Lemma X10_week_key_off_utc_is_the_saturday_witness :
  LocalTZA MoreExamples.new_york ≠ 0
  ∧ TimeWithinDay 1704672000000 = 0
  ∧ getWeekKey MoreExamples.new_york (Some 1704672000000) = Ok "2024-01-06"
  ∧ WeekDay ((utcSunday 1704672000000 - 1) * msPerDay) = 6.
Proof.
  assert (H1 : LocalTZA MoreExamples.new_york ≠ 0) by discriminate.
  split; [exact H1|]. split; [reflexivity|].
  refine (X10_week_key_off_utc_is_the_saturday MoreExamples.new_york
            1704672000000 H1 _ eq_refl _ _ _).
  - reflexivity.
  - vm_compute. discriminate.
  - vm_compute. intros [_ H]. by apply H.
  - vm_compute. intros [_ H]. by apply H.
Defined.

End WeekKeyMore.


(** ** The buckets of [batchDatesByWeek] *)

Module BucketizerMore.
Import EsDate Bucketizer BucketProps.
Import JsMapFacts SortFacts IoFacts BucketizerFacts.

Lemma getWeekKey_Throw env (d : Date) msg :
  getWeekKey env d = Throw msg → msg = "RangeError: Invalid time value"%string.
Proof.
  unfold getWeekKey. cbv zeta.
  destruct (onlyDay env _) as [s|]; simpl; [discriminate | congruence].
Qed.

Lemma addToWeek_Throw env m date msg :
  addToWeek env m date = Throw msg →
  msg = "RangeError: Invalid time value"%string.
Proof.
  unfold addToWeek.
  destruct (getWeekKey env _) as [k|msg'] eqn:E; simpl; [discriminate|].
  intros [= <-]. by eapply getWeekKey_Throw.
Qed.

Lemma addToWeek_invalid env m date :
  ¬ validDate env date →
  addToWeek env m date = Throw "RangeError: Invalid time value".
Proof.
  unfold validDate, addToWeek. intros Hinv.
  destruct (new_Date_string env (split_head "." date)); [|done].
  exfalso. eauto.
Qed.

Lemma groupDates_invalid env dates m :
  Exists (λ d, ¬ validDate env d) dates →
  groupDates env dates m = Throw "RangeError: Invalid time value".
Proof.
  intros H. revert m. induction H as [d ds Hd | d ds _ IH]; intros m; simpl.
  - by rewrite addToWeek_invalid.
  - destruct (addToWeek env m d) as [m'|msg] eqn:E; simpl; [apply IH|].
    by rewrite (addToWeek_Throw _ _ _ _ E).
Qed.

(** X11.  One name in the listing whose date does not parse makes the
    bucketizer throw a [RangeError], whatever the other names are: no
    buckets are returned for the dates that do parse. *)
Theorem X11_one_invalid_date_fails_the_bucketizer env dates :
  Exists (λ d, ¬ validDate env d) dates →
  batchDatesByWeek env dates = Throw "RangeError: Invalid time value".
Proof.
  intros H. unfold batchDatesByWeek. by rewrite groupDates_invalid.
Qed.

Lemma X11_one_invalid_date_fails_the_bucketizer_witness :
  Exists (λ d, ¬ validDate Examples.utc d)
    ["2024-01-07.json"; "notes.txt"; "2024-01-14.json"]
  ∧ batchDatesByWeek Examples.utc
      ["2024-01-07.json"; "notes.txt"; "2024-01-14.json"]
    = Throw "RangeError: Invalid time value".
Proof.
  assert (H : Exists (λ d, ¬ validDate Examples.utc d)
                ["2024-01-07.json"; "notes.txt"; "2024-01-14.json"]).
  { apply Exists_cons_tl, Exists_cons_hd. intros [x Hx]. discriminate. }
  split; [exact H|].
  exact (X11_one_invalid_date_fails_the_bucketizer Examples.utc _ H).
Defined.

Lemma get_Some_elem {V} k (v : V) (m : JsMap.t V) :
  JsMap.get k m = Some v → (k, v) ∈ m.
Proof.
  induction m as [|[k0 v0] m IH]; simpl; [done|].
  destruct (String.eqb_spec k k0) as [->|Hne].
  - intros [= ->]. by left.
  - intros H. right. auto.
Qed.

Lemma set_new {V} k (v : V) (m : JsMap.t V) :
  JsMap.get k m = None → JsMap.set k v m = m ++ [(k, v)].
Proof.
  induction m as [|[k0 v0] m IH]; simpl; [done|].
  destruct (String.eqb_spec k k0) as [->|Hne]; [done|].
  intros H. by rewrite IH.
Qed.

Lemma get_app_new {V} k (v : V) (m : JsMap.t V) :
  JsMap.get k m = None → JsMap.get k (m ++ [(k, v)]) = Some v.
Proof.
  induction m as [|[k0 v0] m IH]; simpl.
  - by rewrite String.eqb_refl.
  - by destruct (String.eqb_spec k k0).
Qed.

Lemma set_last {V} k (v v' : V) (m : JsMap.t V) :
  JsMap.get k m = None →
  JsMap.set k v' (m ++ [(k, v)]) = m ++ [(k, v')].
Proof.
  induction m as [|[k0 v0] m IH]; simpl.
  - by rewrite String.eqb_refl.
  - destruct (String.eqb_spec k k0) as [->|Hne]; [done|].
    intros H. by rewrite IH.
Qed.

(** The [Map] after one more date: the date is pushed on the bucket of
    its week, which is created at the end when the week is new. *)
Lemma addToWeek_result env m date m' :
  addToWeek env m date = Ok m' →
  ∃ weekKey,
    getWeekKey env (new_Date_string env (split_head "." date)) = Ok weekKey
    ∧ m' = match JsMap.get weekKey m with
           | Some ds => JsMap.set weekKey (ds ++ [date]) m
           | None => m ++ [(weekKey, [date])]
           end.
Proof.
  unfold addToWeek. intros H.
  apply bind_Ok_inv in H as (weekKey & Hk & H). simplify_eq/=.
  exists weekKey. split; [done|]. unfold JsMap.has.
  destruct (JsMap.get weekKey m) as [ds|] eqn:E; simpl.
  - by rewrite E.
  - rewrite (set_new _ _ _ E), get_app_new by done. simpl.
    by apply set_last.
Qed.

Lemma set_push_values {A} k (ds : list A) x (m : JsMap.t (list A)) :
  JsMap.get k m = Some ds →
  concat (JsMap.set k (ds ++ [x]) m).*2 ≡ₚ concat m.*2 ++ [x].
Proof.
  induction m as [|[k0 v0] m IH]; simpl; [done|].
  destruct (String.eqb_spec k k0) as [->|Hne].
  - intros [= ->]. simpl. rewrite <- !app_assoc.
    apply Permutation_app_head, Permutation_app_comm.
  - intros H. simpl. by rewrite IH, app_assoc.
Qed.

Lemma Forall_set {V} (P : string * V → Prop) k v (m : JsMap.t V) :
  Forall P m → P (k, v) → Forall P (JsMap.set k v m).
Proof.
  intros Hm Hk. induction Hm as [|[k0 v0] m H0 Hm IH]; simpl.
  - by repeat constructor.
  - destruct (String.eqb k k0); by constructor.
Qed.

Lemma addToWeek_buckets env m date m' :
  addToWeek env m date = Ok m' →
  Forall (goodBucket env) m →
  concat m'.*2 ≡ₚ concat m.*2 ++ [date] ∧ Forall (goodBucket env) m'.
Proof.
  intros H Hgood. apply addToWeek_result in H as (weekKey & Hk & ->).
  destruct (JsMap.get weekKey m) as [ds|] eqn:E.
  - split; [by apply set_push_values|].
    apply Forall_set; [done|].
    apply get_Some_elem in E. rewrite Forall_forall in Hgood.
    destruct (Hgood _ E) as [_ Hds]. simpl in Hds.
    split; simpl; [by destruct ds|].
    apply Forall_app. split; [done | by repeat constructor].
  - split.
    + rewrite fmap_app, concat_app. simpl. by rewrite ?app_nil_r.
    + apply Forall_app. split; [done|]. repeat constructor; simpl; done.
Qed.

Lemma groupDates_buckets env dates m m' :
  groupDates env dates m = Ok m' →
  Forall (goodBucket env) m →
  concat m'.*2 ≡ₚ concat m.*2 ++ dates ∧ Forall (goodBucket env) m'.
Proof.
  revert m. induction dates as [|date rest IH]; intros m H Hgood.
  - simplify_eq/=. by rewrite app_nil_r.
  - simpl in H. apply bind_Ok_inv in H as (m1 & H1 & H).
    apply addToWeek_buckets in H1 as [Hp1 Hg1]; [|done].
    apply IH in H as [Hp Hg]; [|done]. split; [|done].
    by rewrite Hp, Hp1, <- app_assoc.
Qed.

Lemma batch_buckets env dates weekMap :
  batchDatesByWeek env dates = Ok weekMap →
  concat weekMap.*2 ≡ₚ dates ∧ Forall (goodBucket env) weekMap.
Proof.
  unfold batchDatesByWeek. intros H.
  apply bind_Ok_inv in H as (m & Hm & H). simplify_eq/=.
  apply groupDates_buckets in Hm as [Hp Hg]; [|constructor].
  simpl in Hp. split.
  - rewrite <- Hp. clear. induction m as [|[k ds] m IH]; simpl; [done|].
    by rewrite IH, js_sort_perm.
  - clear Hp. induction Hg as [|[k ds] m [Hne Hds] _ IH]; simpl;
      constructor; [|done].
    unfold goodBucket. simpl in *. split.
    + intros Hnil. apply Hne. apply Permutation_nil.
      by rewrite <- (js_sort_perm ds), Hnil.
    + rewrite Forall_forall in Hds |- *. intros d Hd.
      apply Hds. by apply js_sort_elem_of.
Qed.

(** X12.  When the bucketizer returns, its buckets split the listing:
    taken together they hold every name of the listing exactly as often
    as the listing does, no bucket is empty, and the week key of every
    name in a bucket is the key of the bucket. *)
Theorem X12_buckets_split_the_listing_by_week_key env dates weekMap :
  batchDatesByWeek env dates = Ok weekMap →
  concat weekMap.*2 ≡ₚ dates
  ∧ Forall (λ e, e.2 ≠ []
                 ∧ Forall (λ d, getWeekKey env
                                  (new_Date_string env (split_head "." d))
                                = Ok e.1) e.2) weekMap.
Proof. apply batch_buckets. Qed.

Lemma X12_buckets_split_the_listing_by_week_key_witness :
  batchDatesByWeek Examples.utc Examples.dates = Ok Examples.weekMap
  ∧ concat Examples.weekMap.*2 ≡ₚ Examples.dates
  ∧ Forall (λ e, e.2 ≠ []
                 ∧ Forall (λ d, getWeekKey Examples.utc
                                  (new_Date_string Examples.utc
                                     (split_head "." d))
                                = Ok e.1) e.2) Examples.weekMap.
Proof.
  assert (H : batchDatesByWeek Examples.utc Examples.dates
              = Ok Examples.weekMap) by (vm_compute; reflexivity).
  split; [exact H|].
  exact (X12_buckets_split_the_listing_by_week_key Examples.utc
           Examples.dates Examples.weekMap H).
Defined.

End BucketizerMore.


(** ** Reading the seeds *)

Module FsMore.
Import Merge Fs SortFacts.

(** X13.  When the seed folder can be listed, [getSeedDates] returns the
    names of its entries that are files, each as often as it is listed,
    in ascending order; directories are left out. *)
Theorem X13_seed_dates_are_the_sorted_file_names w content :
  seedDir w = Content content →
  ∃ dates,
    getSeedDates w = Ok (Some dates)
    ∧ StronglySorted String.le dates
    ∧ dates ≡ₚ (filter (λ e, e.2 = true) content).*1
    ∧ ∀ name, name ∈ dates ↔ (name, true) ∈ content.
Proof.
  intros Hdir. unfold getSeedDates. rewrite Hdir. eexists.
  split_and!; [done | apply js_sort_sorted | apply js_sort_perm |].
  intros name. rewrite js_sort_elem_of, list_elem_of_fmap. split.
  - intros ([n b] & -> & [Hb Hin]%list_elem_of_filter).
    simpl in *. by subst b.
  - intros Hin. exists (name, true). split; [done|].
    by apply list_elem_of_filter.
Qed.

Lemma X13_seed_dates_are_the_sorted_file_names_witness :
  seedDir MoreExamples.wednesdayWorld = Content MoreExamples.listing
  ∧ ∃ dates,
      getSeedDates MoreExamples.wednesdayWorld = Ok (Some dates)
      ∧ StronglySorted String.le dates
      ∧ dates ≡ₚ (filter (λ e, e.2 = true) MoreExamples.listing).*1
      ∧ ∀ name, name ∈ dates ↔ (name, true) ∈ MoreExamples.listing.
Proof.
  split; [reflexivity|].
  exact (X13_seed_dates_are_the_sorted_file_names
           MoreExamples.wednesdayWorld MoreExamples.listing eq_refl).
Defined.

Lemma substring_all s : String.substring 0 (String.length s) s = s.
Proof. induction s as [|a s IH]; simpl; [done | by rewrite IH]. Qed.

Lemma substring_app_suffix s suffix :
  String.substring (String.length s) (String.length suffix)
    (String.app s suffix) = suffix.
Proof.
  induction s as [|a s IH]; simpl; [apply substring_all | apply IH].
Qed.

Lemma length_app_string s1 s2 :
  String.length (String.app s1 s2)
  = (String.length s1 + String.length s2)%nat.
Proof. induction s1 as [|a s1 IH]; simpl; [done | by rewrite IH]. Qed.

Lemma endsWith_app s suffix : endsWith (String.app s suffix) suffix = true.
Proof.
  unfold endsWith. cbv zeta. rewrite length_app_string.
  replace (String.length s + String.length suffix - String.length suffix)%nat
    with (String.length s) by lia.
  rewrite substring_app_suffix, String.eqb_refl, andb_true_r.
  apply Nat.leb_le. lia.
Qed.

(** X14.  A date can be given with or without the [.json] suffix: both
    forms read the same seed file. *)
Theorem X14_seed_is_read_with_or_without_suffix w date :
  endsWith date ".json" = false →
  readSeedData w (String.app date ".json") = readSeedData w date.
Proof.
  intros H. unfold readSeedData. by rewrite endsWith_app, H.
Qed.

Lemma X14_seed_is_read_with_or_without_suffix_witness :
  endsWith "2024-01-08" ".json" = false
  ∧ readSeedData Examples.world "2024-01-08.json"
    = readSeedData Examples.world "2024-01-08".
Proof.
  split; [reflexivity|].
  exact (X14_seed_is_read_with_or_without_suffix Examples.world
           "2024-01-08" eq_refl).
Defined.

End FsMore.


(** ** A whole run of [processPackage] *)

Module OrchestratorMore.
Import JsArray JsArrayFacts Merge MergeFacts EsDate Bucketizer Fs Orchestrator.
Import JsMapFacts SortFacts IoFacts BucketizerFacts BucketizerMore.
Import OrchestratorFacts.

(** One call only inserts (the package name, the old timestamps and the
    old counts survive). *)
Lemma update_insert_only nd ts s :
  package (updateHistoricalData nd ts s) = package s
  ∧ timestamps s `sublist_of` timestamps (updateHistoricalData nd ts s)
  ∧ (length (timestamps (updateHistoricalData nd ts s))
     ≤ S (length (timestamps s)))%nat
  ∧ ∀ v arr, downloads s !! v = Some arr →
      ∃ arr', downloads (updateHistoricalData nd ts s) !! v = Some arr'
              ∧ arr `sublist_of` arr'.
Proof.
  destruct (already_present ts (timestamps s)) eqn:Hp.
  { rewrite update_noop by done. split_and!; [done | done | lia | eauto]. }
  split_and!.
  - by rewrite update_insert.
  - rewrite update_insert by done. apply splice_insert_sublist.
  - rewrite update_insert by done. simpl. by rewrite length_splice_insert.
  - intros v arr Hd. rewrite update_downloads_lookup by done. rewrite Hd.
    destruct (nd !! v) as [c|]; [destruct (c =? 0)|]; eexists; split;
      try reflexivity; try apply splice_insert_sublist.
    etrans; apply splice_insert_sublist.
Qed.

Lemma mergeAll_insert_only obs s :
  package (mergeAll obs s) = package s
  ∧ timestamps s `sublist_of` timestamps (mergeAll obs s)
  ∧ (length (timestamps (mergeAll obs s))
     ≤ length (timestamps s) + length obs)%nat
  ∧ ∀ v arr, downloads s !! v = Some arr →
      ∃ arr', downloads (mergeAll obs s) !! v = Some arr'
              ∧ arr `sublist_of` arr'.
Proof.
  unfold mergeAll. revert s. induction obs as [|o obs IH]; intros s; simpl.
  { split_and!; [done | done | lia | eauto]. }
  destruct (IH (updateHistoricalData o.2 o.1 s)) as (Hp & Hs & Hl & Ha).
  destruct (update_insert_only o.2 o.1 s) as (Hp' & Hs' & Hl' & Ha').
  split_and!.
  - by rewrite Hp.
  - by etrans.
  - lia.
  - intros v arr Hv. destruct (Ha' v arr Hv) as (arr1 & Hv1 & Hsub1).
    destruct (Ha v arr1 Hv1) as (arr2 & Hv2 & Hsub2).
    exists arr2. split; [done | by etrans].
Qed.

Lemma mergeAll_aligned obs s :
  Forall (λ o, map_Forall (λ _ c, c ≠ 0) o.2) obs →
  aligned s → aligned (mergeAll obs s).
Proof.
  unfold mergeAll. intros H. revert s.
  induction H as [|o obs Ho _ IH]; intros s Hal; simpl; [done|].
  apply IH. by apply update_aligned_nonzero.
Qed.

(** The inner loop returns the state unchanged, or merges the data of one
    date of the week. *)
Lemma scanWeek_step env w pkg ds st b st' :
  scanWeek env w pkg ds st = Ok (b, st') →
  st' = st
  ∨ ∃ d nd t, d ∈ ds ∧ dataOn w pkg d = Some nd
              ∧ st' = (updateHistoricalData nd t st.1, S st.2).
Proof.
  induction ds as [|d ds IH]; simpl.
  - intros [= <- <-]. by left.
  - intros H. apply bind_Ok_inv in H as (data & Hread & H).
    destruct (packageDownloads pkg data) as [nd|] eqn:Hnd.
    + destruct (getTime _) as [t|]; [|discriminate]. simplify_eq.
      right. exists d, nd, t. split_and!; [by left | | done].
      unfold dataOn. by rewrite Hread.
    + destruct (IH H) as [-> | (d' & nd & t & Hd & Hdata & ->)]; [by left|].
      right. exists d', nd, t. split_and!; [by right | done | done].
Qed.

(** The outer loop merges at most one observation for every key, each
    taken from a date of the bucket of its key. *)
Lemma scanWeeks_steps env w pkg weekMap weekKeys st r :
  scanWeeks env w pkg weekMap weekKeys st = Ok r →
  ∃ obs,
    r = (mergeAll obs st.1, (st.2 + length obs)%nat)
    ∧ (length obs ≤ length weekKeys)%nat
    ∧ Forall (λ o, ∃ k ds d, k ∈ weekKeys ∧ JsMap.get k weekMap = Some ds
                             ∧ d ∈ ds ∧ dataOn w pkg d = Some o.2) obs.
Proof.
  revert st. induction weekKeys as [|k ks IH]; intros st; simpl.
  - intros [= <-]. exists []. destruct st. simpl.
    split_and!; [by rewrite Nat.add_0_r | done | done].
  - intros H. apply bind_Ok_inv in H as ([b st'] & Hweek & H).
    apply IH in H as (obs & -> & Hlen & Hall). simpl in *.
    assert (Hall' : Forall (λ o, ∃ k0 ds d,
                        k0 ∈ k :: ks ∧ JsMap.get k0 weekMap = Some ds
                        ∧ d ∈ ds ∧ dataOn w pkg d = Some o.2) obs).
    { eapply Forall_impl; [exact Hall|].
      intros o (k0 & ds & d & ? & ? & ? & ?).
      exists k0, ds, d. split_and!; [by right | done..]. }
    apply scanWeek_step in Hweek
      as [-> | (d & nd & t & Hd & Hdata & ->)].
    + exists obs. split_and!; [done | lia | done].
    + exists ((t, nd) :: obs). simpl. split_and!.
      * by rewrite Nat.add_succ_r.
      * lia.
      * constructor; [|done]. simpl.
        destruct (JsMap.get k weekMap) as [ds|] eqn:E; simpl in Hd.
        -- exists k, ds, d. split_and!; [by left | done..].
        -- by apply elem_of_nil in Hd.
Qed.

(** What a successful run has done, step by step. *)
Lemma processPackage_Ok_inv env w p w' n :
  processPackage env w p = Ok (w', n) →
  ∃ dates existing weekMap r,
    getSeedDates w = Ok (Some dates)
    ∧ dataFiles w !! dataPath p = Some (Ok existing)
    ∧ batchDatesByWeek env dates = Ok weekMap
    ∧ scanWeeks env w p weekMap (js_sort (JsMap.keys weekMap))
        (existing, 0%nat) = Ok r
    ∧ w' = with_data w (<[dataPath p := Ok r.1]> (dataFiles w))
    ∧ n = r.2.
Proof.
  unfold processPackage. intros H.
  apply bind_Ok_inv in H as ([dates|] & Hdates & H); [|discriminate].
  apply bind_Ok_inv in H as ([] & _ & H).
  apply bind_Ok_inv in H as ([existing|] & Hex & H); [|discriminate].
  apply bind_Ok_inv in H as (weekMap & Hb & H).
  apply bind_Ok_inv in H as (r & Hscan & H).
  apply bind_Ok_inv in H as (w1 & Hw & H). simplify_eq.
  exists dates, existing, weekMap, r. split_and!; try done.
  - unfold readExistingData in Hex.
    by destruct (dataFiles w !! dataPath p) as [[?|?]|]; simplify_eq.
  - unfold writeFile in Hw. by destruct (writeError w _); simplify_eq.
Qed.

Lemma buckets_count (m : JsMap.t (list string)) :
  Forall (λ e, e.2 ≠ []) m → (length m ≤ length (concat m.*2))%nat.
Proof.
  induction 1 as [|[k ds] m Hne _ IH]; [done|].
  rewrite fmap_cons, concat_cons, length_app.
  destruct ds as [|d ds]; [done|].
  change (length ((k, d :: ds) :: m)) with (S (length m)).
  change (length ((k, d :: ds).2)) with (S (length ds)). lia.
Qed.

(** X15.  A run of [processPackage] that succeeds has found the series
    of the package on disk and has rewritten that file and no other.  The
    series written keeps the package name, holds the old timestamps and
    the old counts of every version in their order, and has at most one
    new timestamp for every week added; the number of weeks added is at
    most the number of seed files. *)
Theorem X15_run_only_extends_the_series_of_its_package env w p w' n :
  processPackage env w p = Ok (w', n) →
  ∃ dates existing written,
    getSeedDates w = Ok (Some dates)
    ∧ dataFiles w !! dataPath p = Some (Ok existing)
    ∧ w' = with_data w (<[dataPath p := Ok written]> (dataFiles w))
    ∧ package written = package existing
    ∧ timestamps existing `sublist_of` timestamps written
    ∧ (∀ v arr, downloads existing !! v = Some arr →
         ∃ arr', downloads written !! v = Some arr' ∧ arr `sublist_of` arr')
    ∧ (length (timestamps written) ≤ length (timestamps existing) + n)%nat
    ∧ (n ≤ length dates)%nat.
Proof.
  intros H.
  apply processPackage_Ok_inv in H
    as (dates & existing & weekMap & r & Hd & He & Hb & Hscan & -> & ->).
  apply scanWeeks_steps in Hscan as (obs & -> & Hlen & _). simpl in *.
  destruct (mergeAll_insert_only obs existing) as (Hp & Hs & Hl & Ha).
  exists dates, existing, (mergeAll obs existing).
  split_and!; try done.
  rewrite js_sort_perm in Hlen. unfold JsMap.keys in Hlen.
  rewrite length_map in Hlen.
  apply batch_buckets in Hb as [Hperm Hgood].
  assert (length weekMap ≤ length (concat weekMap.*2))%nat as Hcount.
  { apply buckets_count. eapply Forall_impl; [exact Hgood|]. by intros e []. }
  rewrite Hperm in Hcount. lia.
Qed.

Lemma examples_run :
  processPackage Examples.utc Examples.world "react"
  = Ok (with_data Examples.world
          {[ dataPath "react" :=
               Ok (mkHistoricalData "react" [1704672000000; 1705795200000]
                     {[ "18.2.0" := [5; 4] ]}) ]},
        1%nat).
Proof. vm_compute. reflexivity. Qed.

Lemma X15_run_only_extends_the_series_of_its_package_witness :
  ∃ w' n,
    processPackage Examples.utc Examples.world "react" = Ok (w', n)
    ∧ ∃ dates existing written,
        getSeedDates Examples.world = Ok (Some dates)
        ∧ dataFiles Examples.world !! dataPath "react" = Some (Ok existing)
        ∧ w' = with_data Examples.world
                 (<[dataPath "react" := Ok written]>
                    (dataFiles Examples.world))
        ∧ package written = package existing
        ∧ timestamps existing `sublist_of` timestamps written
        ∧ (∀ v arr, downloads existing !! v = Some arr →
             ∃ arr', downloads written !! v = Some arr'
                     ∧ arr `sublist_of` arr')
        ∧ (length (timestamps written)
           ≤ length (timestamps existing) + n)%nat
        ∧ (n ≤ length dates)%nat.
Proof.
  eexists _, _. split; [exact examples_run|].
  exact (X15_run_only_extends_the_series_of_its_package _ _ _ _ _
           examples_run).
Defined.

(** X16.  Index alignment survives a whole run: when the series on disk
    is index aligned and no seed of the listing holds a count of zero for
    the package, the series that a successful run writes is index
    aligned. *)
Theorem X16_run_keeps_alignment_without_zero_counts env w p w' n dates
    existing :
  processPackage env w p = Ok (w', n) →
  getSeedDates w = Ok (Some dates) →
  dataFiles w !! dataPath p = Some (Ok existing) →
  Forall (λ d, ∀ nd, dataOn w p d = Some nd →
                     map_Forall (λ _ c, c ≠ 0) nd) dates →
  aligned existing →
  ∃ written, dataFiles w' !! dataPath p = Some (Ok written) ∧ aligned written.
Proof.
  intros H Hd He Hnz Hal.
  apply processPackage_Ok_inv in H
    as (dates' & existing' & weekMap & r & Hd' & He' & Hb & Hscan & -> & ->).
  rewrite Hd in Hd'. injection Hd' as <-.
  rewrite He in He'. injection He' as <-.
  apply scanWeeks_steps in Hscan as (obs & -> & _ & Hobs). simpl.
  exists (mergeAll obs existing). split; [by rewrite lookup_insert_eq|].
  apply mergeAll_aligned; [|done].
  apply batchDatesByWeek_buckets in Hb as (_ & Hin & _).
  eapply Forall_impl; [exact Hobs|].
  intros o (k & ds & d & _ & Hget & Hds & Hdata).
  specialize (Hin k ds Hget). rewrite Forall_forall in Hin, Hnz.
  destruct (Hin d Hds) as [Hdd _]. by apply (Hnz d Hdd).
Qed.

Lemma examples_counts_nonzero :
  Forall (λ d, ∀ nd, dataOn Examples.world "react" d = Some nd →
                     map_Forall (λ _ c, c ≠ 0) nd) Examples.dates.
Proof.
  unfold Examples.dates.
  repeat (apply List.Forall_cons); [..|apply List.Forall_nil];
    cbv beta; intros nd Hnd.
  - vm_compute in Hnd. discriminate.
  - assert (E : dataOn Examples.world "react" "2024-01-08.json"
                = Some {[ "18.2.0" := 5 ]}) by (vm_compute; reflexivity).
    rewrite E in Hnd. injection Hnd as <-.
    apply (bool_decide_unpack _). vm_compute. exact I.
  - assert (E : dataOn Examples.world "react" "2024-01-09.json"
                = Some {[ "18.2.0" := 9 ]}) by (vm_compute; reflexivity).
    rewrite E in Hnd. injection Hnd as <-.
    apply (bool_decide_unpack _). vm_compute. exact I.
  - vm_compute in Hnd. discriminate.
Qed.

Lemma X16_run_keeps_alignment_without_zero_counts_witness :
  getSeedDates Examples.world = Ok (Some Examples.dates)
  ∧ aligned Examples.series
  ∧ ∃ written,
      dataFiles
        (with_data Examples.world
           {[ dataPath "react" :=
                Ok (mkHistoricalData "react" [1704672000000; 1705795200000]
                      {[ "18.2.0" := [5; 4] ]}) ]})
        !! dataPath "react" = Some (Ok written)
      ∧ aligned written.
Proof.
  assert (Hal : aligned Examples.series)
    by (apply (bool_decide_unpack _); vm_compute; exact I).
  assert (Hd : getSeedDates Examples.world = Ok (Some Examples.dates))
    by (vm_compute; reflexivity).
  assert (He : dataFiles Examples.world !! dataPath "react"
               = Some (Ok Examples.series)) by (vm_compute; reflexivity).
  split; [exact Hd|]. split; [exact Hal|].
  exact (X16_run_keeps_alignment_without_zero_counts Examples.utc
           Examples.world "react" _ 1%nat Examples.dates Examples.series
           examples_run Hd He examples_counts_nonzero Hal).
Defined.

(** X17.  How a run fails before it reads any seed: a missing seed
    folder is reported as such, any other failure to list it is passed
    on, then a failure of [mkdir], and then the series of the package,
    which has to exist already: a missing file is reported with the name
    of the package, an unreadable one passes its error on. *)
Theorem X17_run_fails_without_seed_folder_or_series env w p :
  match seedDir w with
  | Enoent => processPackage env w p = Throw "Seed folder not found"
  | ReadError msg => processPackage env w p = Throw msg
  | Content _ =>
      match mkdirError w (dirname (dataPath p)) with
      | Some msg => processPackage env w p = Throw msg
      | None =>
          match dataFiles w !! dataPath p with
          | None =>
              processPackage env w p
              = Throw (String.app "existing data not found for " p)
          | Some (Throw msg) => processPackage env w p = Throw msg
          | Some (Ok _) => True
          end
      end
  end.
Proof.
  unfold processPackage, getSeedDates, mkdir, readExistingData.
  destruct (seedDir w); simpl; try done.
  destruct (mkdirError w _); simpl; [done|].
  by destruct (dataFiles w !! dataPath p) as [[?|?]|].
Qed.



End OrchestratorMore.


(** ** The batch over the package list *)

Module BatchMore.
Import Merge EsDate Fs Orchestrator Batch IoFacts BatchFacts.

(** X19.  A run of [main] changes nothing but the files of the tracked
    packages: the seed folder, the seed files and every other file under
    [data] are after the run what they were before it. *)
Theorem X19_batch_touches_only_the_files_of_its_packages env w :
  ∃ files,
    (main env w).1 = with_data w files
    ∧ ∀ path, path ∉ dataPath <$> PACKAGES →
        files !! path = dataFiles w !! path.
Proof.
  unfold main.
  destruct (allSettled_isolated env w PACKAGES (dataFiles w)
              PACKAGES_paths_NoDup ltac:(done)) as (files & Hall & _ & Hout).
  rewrite with_data_id in Hall. rewrite Hall.
  exists files. split; [reflexivity | exact Hout].
Qed.

Lemma allSettled_all_fail env w msg ps :
  (∀ p, processPackage env w p = Throw msg) →
  allSettled env w ps
  = (w, (λ p, Fulfilled (mkResult p false (Some msg))) <$> ps).
Proof.
  intros Hfail. induction ps as [|p ps IH]; [done|].
  cbn [allSettled]. unfold runPackage. rewrite Hfail.
  cbn [worldAfter]. rewrite IH. reflexivity.
Qed.

(** X20.  Without a seed folder every package fails with the same
    message and the batch still returns its summary: one failed entry for
    each of the 31 packages, none successful, and the world as it was. *)
Theorem X20_batch_without_seed_folder_fails_every_package env w :
  seedDir w = Enoent →
  main env w
  = (w, mkSummary
          ((λ p, Fulfilled (mkResult p false (Some "Seed folder not found")))
             <$> PACKAGES)
          0%nat 31).
Proof.
  intros Hdir. unfold main.
  rewrite (allSettled_all_fail env w "Seed folder not found").
  - reflexivity.
  - intros p. unfold processPackage, getSeedDates. by rewrite Hdir.
Qed.

Lemma X20_batch_without_seed_folder_fails_every_package_witness :
  seedDir MoreExamples.noSeeds = Enoent
  ∧ main Examples.utc MoreExamples.noSeeds
    = (MoreExamples.noSeeds,
       mkSummary
         ((λ p, Fulfilled (mkResult p false (Some "Seed folder not found")))
            <$> PACKAGES)
         0%nat 31).
Proof.
  split; [reflexivity|].
  exact (X20_batch_without_seed_folder_fails_every_package Examples.utc
           MoreExamples.noSeeds eq_refl).
Defined.

End BatchMore.

(** ** The earlier version: Wednesdays only *)

Module WednesdayFacts.
Import Merge EsDate Fs Orchestrator IoFacts.

(** The loop merges the observations of the Wednesdays, in the order of
    the listing; only the seeds of Wednesdays are read. *)
Lemma scanDates_wednesdays env w p dates st :
  Forall (λ d, ∀ t, new_Date_string env (split_head "." d) = Some t →
                    WeekDay t = 3 →
                    succeeded (readSeedData w d) = true) dates →
  let obs := omap (WednesdayScript.wednesdayObservation env w p) dates in
  WednesdayScript.scanDates env w p dates st
  = Ok (mergeAll obs st.1, (st.2 + length obs)%nat).
Proof.
  intros H. revert st. induction H as [|d ds Hd _ IH]; intros st.
  { destruct st. simpl. by rewrite Nat.add_0_r. }
  cbn [WednesdayScript.scanDates omap list_omap].
  destruct (new_Date_string env (split_head "." d)) as [t|] eqn:Ht.
  2: { assert (E : WednesdayScript.wednesdayObservation env w p d = None).
       { unfold WednesdayScript.wednesdayObservation. by rewrite Ht. }
       rewrite E. apply IH. }
  cbn [getUTCDay fmap option_fmap option_map WednesdayScript.notWednesday].
  destruct (Z.eqb_spec (WeekDay t) 3) as [Hwed|Hne]; cbn [negb].
  2: { assert (E : WednesdayScript.wednesdayObservation env w p d = None).
       { unfold WednesdayScript.wednesdayObservation. rewrite Ht.
         cbn [mbind option_bind]. by rewrite (proj2 (Z.eqb_neq _ _) Hne). }
       rewrite E. apply IH. }
  specialize (Hd t eq_refl Hwed).
  assert (E : WednesdayScript.wednesdayObservation env w p d
              = pair t <$> dataOn w p d).
  { unfold WednesdayScript.wednesdayObservation. rewrite Ht.
    cbn [mbind option_bind]. rewrite (proj2 (Z.eqb_eq _ _) Hwed).
    by destruct (dataOn w p d). }
  rewrite E. unfold dataOn.
  destruct (readSeedData w d) as [data|]; [|done].
  cbn [mbind io_bind].
  destruct (packageDownloads p data) as [nd|];
    cbn [fmap option_fmap option_map getTime]; [|apply IH].
  rewrite IH. cbn [mergeAll foldl fst snd length].
  by rewrite Nat.add_succ_r.
Qed.

(** X21.  The earlier [processPackage] merges, in the order of the
    unsorted listing, the observation of every name whose date parses to
    a Wednesday (UTC) and whose seed holds data for the package, and
    nothing else: names that do not parse and dates of other weekdays are
    skipped without their seed being read, so that an unreadable seed of
    another weekday does not fail the run. *)
Theorem X21_earlier_version_merges_wednesdays_only env w p dates existing :
  WednesdayScript.getSeedDates w = Ok (Some dates) →
  mkdirError w (dirname (dataPath p)) = None →
  dataFiles w !! dataPath p = Some (Ok existing) →
  Forall (λ d, ∀ t, new_Date_string env (split_head "." d) = Some t →
                    WeekDay t = 3 →
                    succeeded (readSeedData w d) = true) dates →
  writeError w (dataPath p) = None →
  let obs := omap (WednesdayScript.wednesdayObservation env w p) dates in
  WednesdayScript.processPackage env w p
  = Ok (with_data w (<[dataPath p := Ok (mergeAll obs existing)]>
                       (dataFiles w)),
        length obs).
Proof.
  intros Hd Hmk He Hreads Hwr obs.
  unfold WednesdayScript.processPackage. rewrite Hd. cbn [mbind io_bind].
  unfold mkdir. rewrite Hmk. cbn [mbind io_bind].
  unfold readExistingData. rewrite He. cbn [mbind io_bind].
  rewrite (scanDates_wednesdays env w p dates (existing, 0%nat) Hreads).
  cbn [mbind io_bind fst snd]. unfold writeFile. rewrite Hwr. reflexivity.
Qed.

Lemma wednesday_reads :
  Forall (λ d, ∀ t,
            new_Date_string Examples.utc (split_head "." d) = Some t →
            WeekDay t = 3 →
            succeeded (readSeedData MoreExamples.wednesdayWorld d) = true)
    ["2024-01-10.json"; "2024-01-04.json"; "notes.txt"; "2024-01-03.json"].
Proof.
  repeat (apply List.Forall_cons); [..|apply List.Forall_nil];
    cbv beta; intros t Ht Hwed.
  - reflexivity.
  - vm_compute in Ht. injection Ht as <-. vm_compute in Hwed. discriminate.
  - vm_compute in Ht. discriminate.
  - reflexivity.
Qed.

Lemma X21_earlier_version_merges_wednesdays_only_witness :
  WednesdayScript.getSeedDates MoreExamples.wednesdayWorld
  = Ok (Some ["2024-01-10.json"; "2024-01-04.json"; "notes.txt";
              "2024-01-03.json"])
  ∧ readSeedData MoreExamples.wednesdayWorld "2024-01-04.json"
    = Throw "Unexpected token"
  ∧ WednesdayScript.processPackage Examples.utc MoreExamples.wednesdayWorld
      "react"
    = Ok (with_data MoreExamples.wednesdayWorld
            {[ dataPath "react" :=
                 Ok (mkHistoricalData "react"
                       [1704240000000; 1704844800000; 1705795200000]
                       {[ "18.2.0" := [7; 8; 4] ]}) ]},
          2%nat).
Proof.
  assert (Hd : WednesdayScript.getSeedDates MoreExamples.wednesdayWorld
               = Ok (Some ["2024-01-10.json"; "2024-01-04.json";
                           "notes.txt"; "2024-01-03.json"]))
    by (vm_compute; reflexivity).
  split; [exact Hd|]. split; [reflexivity|].
  rewrite (X21_earlier_version_merges_wednesdays_only Examples.utc
             MoreExamples.wednesdayWorld "react" _ Examples.series
             Hd eq_refl eq_refl wednesday_reads eq_refl).
  vm_compute. reflexivity.
Defined.

End WednesdayFacts.
